(** * Federated search aggregation and cross-modal ranking

    A shallow embedding of the aggregation and ranking logic of the two
    page-level flows of the application:

    - [src/app/creator-brand-match/page.tsx]: [getMatchLevel],
      [getMatchLevelPriority], [combineSearchResults], [handleFindMatches];
    - [src/app/semantic-search/page.tsx]: [loadMoreResults],
      [handleTextSearch], [fetchVideoDetailsForResults], [filteredResults],
      [toggleFormatFilter], [clearSearch], the result counters,
      [formatTime];
    - [src/components/VideoPlayer.tsx]: [handleTimeUpdate],
      [handleProgress], [toggleMute], [formatTime];
    - [src/components/Heatmap.tsx]: [getColorForValue] and the colour of
      a row's cells.

    Conventions of the embedding.

    - A JavaScript [number] is an exact rational ([Q]).  Scores, time
      ranges and dimensions reach the pages as finite JSON numbers; the
      rounding of binary64 arithmetic, NaN and the infinities are outside
      this part of the model.  Numeric equality is [==] on [Q].
    - Where a statement depends on the value that binary64 arithmetic
      delivers (the boosted score and the order of the combined ranking),
      [combineSearchResults] is embedded a second time, in the module
      [Binary64], with primitive binary64 floats for [number] and the
      IEEE 754 operations that JavaScript performs.
    - An optional property ([x?: T], or a value that may be [null] or
      [undefined]) is an [option].
    - A [Map] is an association list in insertion order: [Map.set] on a key
      that is present replaces the value in place, otherwise appends.
    - [Array.prototype.sort] is the stable sort that ECMAScript prescribes,
      driven by the sign of the comparator.
    - Asynchronous calls to collaborators (HTTP endpoints, the embedding
      hooks) are inputs of the handlers: each either fails (the promise
      rejects) or delivers a value. *)

From Stdlib Require Import QArith Qminmax Lqa Permutation Sorted.
From Stdlib Require Import Qround.
From Stdlib Require Import Floats.
From stdpp Require Import gmap strings list pretty.

Set Warnings "-inexact-float".

Open Scope Q_scope.

(** ** JavaScript values shared by both pages *)

Definition number := Q.

(** Truthiness of a number: [0] is falsy. *)
Definition truthy_number (x : number) : bool := negb (Qeq_bool x 0).

(** [x || 0] for an optional number. *)
Definition or_zero (x : option number) : number :=
  match x with
  | Some v => if truthy_number v then v else 0
  | None => 0
  end.

(** Truthiness of an optional string: [undefined], [null] and [""] are falsy.
    The result is the string itself when it is truthy. *)
Definition truthy_string (x : option string) : option string :=
  match x with
  | Some s => if String.eqb s "" then None else Some s
  | None => None
  end.

(** The outcome of awaiting a promise.  A rejection carries the [message]
    of the thrown value when that value is an [Error]. *)
Inductive Outcome (A : Type) : Type :=
| Rejected : option string -> Outcome A
| Resolved : A -> Outcome A.
Arguments Rejected {A} _.
Arguments Resolved {A} _.

(** ** [Array.prototype.sort] *)

Section JsSort.
Context {A : Type}.
(** The comparator: negative puts its first argument first, positive its
    second, zero keeps the order of arrival. *)
Variable compareFn : A -> A -> number.

Fixpoint sort_insert (x : A) (l : list A) : list A :=
  match l with
  | [] => [x]
  | y :: l' =>
      if Qle_bool (compareFn x y) 0 then x :: y :: l'
      else y :: sort_insert x l'
  end.

Definition js_sort (l : list A) : list A := foldr sort_insert [] l.
End JsSort.

(** ** [Map<string, V>] in insertion order *)

Section JsMap.
Context {V : Type}.

Fixpoint map_get (k : string) (m : list (string * V)) : option V :=
  match m with
  | [] => None
  | (k', v) :: m' => if String.eqb k' k then Some v else map_get k m'
  end.

Definition map_has (k : string) (m : list (string * V)) : bool :=
  match map_get k m with Some _ => true | None => false end.

Fixpoint map_set (k : string) (v : V) (m : list (string * V))
  : list (string * V) :=
  match m with
  | [] => [(k, v)]
  | (k', v') :: m' =>
      if String.eqb k' k then (k, v) :: m'
      else (k', v') :: map_set k v m'
  end.

Definition map_values (m : list (string * V)) : list V := map snd m.
End JsMap.

(** ** Creator / brand match page *)

Module BrandMatch.

(** Modelled from the spec: the declaration of [EmbeddingSearchResult]
    (imported from [@/types]) is not among the sources.  Of its [metadata]
    the page reads the [tl_video_id], the entity id of the spec. *)
Record Metadata := mkMetadata { tl_video_id : option string }.

(** Modelled from the spec: the declaration of [EmbeddingSearchResult]
    (imported from [@/types]) is not among the sources.  The record has
    the properties that [combineSearchResults] reads and writes; the spec
    calls it SimilarityMatch ([entityId], [textScore], [videoScore],
    [combinedScore], [originSource]). *)
Record EmbeddingSearchResult := mkResult {
  metadata : option Metadata;
  score : number;
  textScore : option number;
  videoScore : option number;
  originalSource : option string
}.

Inductive MatchLevel := High | Medium | Low.

Definition getMatchLevel (score : number) (source : option string)
  : MatchLevel :=
  if bool_decide (source = Some "BOTH"%string) then High
  else if Qle_bool 1 score then High
  else if Qle_bool 0.5 score then Medium
  else Low.

Definition getMatchLevelPriority (level : MatchLevel) : Z :=
  match level with
  | High => 3
  | Medium => 2
  | Low => 1
  end%Z.

(** [result.metadata?.tl_video_id] *)
Definition videoId_of (result : EmbeddingSearchResult) : option string :=
  match metadata result with
  | Some md => tl_video_id md
  | None => None
  end.

(** The body of [textResults.forEach]. *)
Definition processText
  (resultMap : list (string * EmbeddingSearchResult))
  (result : EmbeddingSearchResult) : list (string * EmbeddingSearchResult) :=
  match truthy_string (videoId_of result) with
  | Some videoId =>
      map_set videoId
        {| metadata := metadata result;
           score := score result;
           textScore := Some (score result);
           videoScore := videoScore result;
           originalSource := Some "TEXT"%string |}
        resultMap
  | None => resultMap
  end.

(** The body of [videoResults.forEach]. *)
Definition processVideo
  (resultMap : list (string * EmbeddingSearchResult))
  (result : EmbeddingSearchResult) : list (string * EmbeddingSearchResult) :=
  match truthy_string (videoId_of result) with
  | None => resultMap
  | Some videoId =>
      match map_get videoId resultMap with
      | Some existingResult =>
          let textScore' := or_zero (textScore existingResult) in
          let videoScore' := score result in
          let maxScore := Qmax textScore' videoScore' in
          let boostedScore := maxScore * 1.15 in
          map_set videoId
            {| metadata := metadata existingResult;
               score := boostedScore;
               textScore := Some textScore';
               videoScore := Some videoScore';
               originalSource := Some "BOTH"%string |}
            resultMap
      | None =>
          map_set videoId
            {| metadata := metadata result;
               score := score result;
               textScore := textScore result;
               videoScore := Some (score result);
               originalSource := Some "VIDEO"%string |}
            resultMap
      end
  end.

(** The comparator handed to [sort]. *)
Definition compareResults (a b : EmbeddingSearchResult) : number :=
  let levelA := getMatchLevel (score a) (originalSource a) in
  let levelB := getMatchLevel (score b) (originalSource b) in
  let levelPriorityA := getMatchLevelPriority levelA in
  let levelPriorityB := getMatchLevelPriority levelB in
  if negb (levelPriorityA =? levelPriorityB)%Z
  then inject_Z (levelPriorityB - levelPriorityA)
  else score b - score a.

Definition buildResultMap (textResults videoResults : list EmbeddingSearchResult)
  : list (string * EmbeddingSearchResult) :=
  foldl processVideo (foldl processText [] textResults) videoResults.

Definition combineSearchResults
  (textResults videoResults : list EmbeddingSearchResult)
  : list EmbeddingSearchResult :=
  js_sort compareResults
    (map_values (buildResultMap textResults videoResults)).

(** *** [handleFindMatches]

    The handler is written in a small monad over the component state and
    the log of calls made to the collaborators.  A computation completes
    normally, by [return], or by a thrown exception. *)

Record ReadinessState := mkReadiness {
  processedCount : Z;
  totalCount : Z;
  success : bool
}.

Record PageState := mkPage {
  selectedVideoId : option string;
  isAnalyzing : bool;
  similarResults : list EmbeddingSearchResult;
  isLoadingEmbeddings : bool;
  embeddingsReady : bool;
  isProcessingTargetEmbeddings : bool;
  targetEmbeddingsProgress : Z * Z
}.

(** The hooks of [@/hooks/apiHooks], as the page sees them: what each
    call delivers for the selected video (the index ids are fixed by the
    configuration of the page). *)
Record Collaborators := mkCollaborators {
  checkAndEnsureEmbeddings : string -> Outcome ReadinessState;
  textToVideoEmbeddingSearch : string -> Outcome (list EmbeddingSearchResult);
  videoToVideoEmbeddingSearch : string -> Outcome (list EmbeddingSearchResult)
}.

Inductive Call :=
| CallCheckAndEnsureEmbeddings (videoId : string)
| CallTextToVideoEmbeddingSearch (videoId : string)
| CallVideoToVideoEmbeddingSearch (videoId : string)
| CallCombineSearchResults.

Inductive Completion (A : Type) : Type :=
| Normal : A -> Completion A
| Return : Completion A
| Throw : Completion A.
Arguments Normal {A} _.
Arguments Return {A}.
Arguments Throw {A}.

Definition Handler (A : Type) : Type :=
  PageState -> list Call -> Completion A * PageState * list Call.

#[local] Instance handler_ret : MRet Handler :=
  fun A a st calls => (Normal a, st, calls).

#[local] Instance handler_bind : MBind Handler :=
  fun A B k m st calls =>
    match m st calls with
    | (Normal a, st', calls') => k a st' calls'
    | (Return, st', calls') => (Return, st', calls')
    | (Throw, st', calls') => (Throw, st', calls')
    end.

Definition getState : Handler PageState :=
  fun st calls => (Normal st, st, calls).

Definition setState (f : PageState -> PageState) : Handler unit :=
  fun st calls => (Normal tt, f st, calls).

Definition early_return {A} : Handler A :=
  fun st calls => (Return, st, calls).

Definition invoke (c : Call) : Handler unit :=
  fun st calls => (Normal tt, st, calls ++ [c]).

Definition settle {A} (o : Outcome A) : Handler A :=
  fun st calls =>
    match o with
    | Resolved a => (Normal a, st, calls)
    | Rejected _ => (Throw, st, calls)
    end.

(** [await f(...)]: the call is made, then its promise is awaited. *)
Definition await {A} (c : Call) (o : Outcome A) : Handler A :=
  invoke c ;; settle o.

(** [await Promise.all([f(...), g(...)])]: both calls are made before
    either promise is awaited. *)
Definition await_all2 {A B} (c1 : Call) (o1 : Outcome A)
  (c2 : Call) (o2 : Outcome B) : Handler (A * B) :=
  invoke c1 ;; invoke c2 ;;
  a ← settle o1; b ← settle o2; mret (a, b).

(** [try { body } catch { console.error(...) } finally { fin }] *)
Definition try_catch_finally {A} (body : Handler A) (fin : Handler unit)
  : Handler unit :=
  fun st calls =>
    match body st calls with
    | (Normal _, st', calls') => fin st' calls'
    | (Throw, st', calls') => fin st' calls'
    | (Return, st', calls') =>
        match fin st' calls' with
        | (Normal _, st'', calls'') => (Return, st'', calls'')
        | other => other
        end
    end.

Definition setIsAnalyzing (b : bool) (st : PageState) : PageState :=
  mkPage (selectedVideoId st) b (similarResults st)
    (isLoadingEmbeddings st) (embeddingsReady st)
    (isProcessingTargetEmbeddings st) (targetEmbeddingsProgress st).

Definition setSimilarResults (l : list EmbeddingSearchResult)
  (st : PageState) : PageState :=
  mkPage (selectedVideoId st) (isAnalyzing st) l
    (isLoadingEmbeddings st) (embeddingsReady st)
    (isProcessingTargetEmbeddings st) (targetEmbeddingsProgress st).

Definition setIsLoadingEmbeddings (b : bool) (st : PageState) : PageState :=
  mkPage (selectedVideoId st) (isAnalyzing st) (similarResults st)
    b (embeddingsReady st)
    (isProcessingTargetEmbeddings st) (targetEmbeddingsProgress st).

Definition setEmbeddingsReady (b : bool) (st : PageState) : PageState :=
  mkPage (selectedVideoId st) (isAnalyzing st) (similarResults st)
    (isLoadingEmbeddings st) b
    (isProcessingTargetEmbeddings st) (targetEmbeddingsProgress st).

Definition setIsProcessingTargetEmbeddings (b : bool) (st : PageState)
  : PageState :=
  mkPage (selectedVideoId st) (isAnalyzing st) (similarResults st)
    (isLoadingEmbeddings st) (embeddingsReady st)
    b (targetEmbeddingsProgress st).

Definition setTargetEmbeddingsProgress (p : Z * Z) (st : PageState)
  : PageState :=
  mkPage (selectedVideoId st) (isAnalyzing st) (similarResults st)
    (isLoadingEmbeddings st) (embeddingsReady st)
    (isProcessingTargetEmbeddings st) p.

Definition handleFindMatches (env : Collaborators) : Handler unit :=
  st ← getState;
  match truthy_string (selectedVideoId st) with
  | None => early_return
  | Some videoId =>
      setState (setIsAnalyzing true) ;;
      setState (setSimilarResults []) ;;
      try_catch_finally
        (setState (setIsLoadingEmbeddings true) ;;
         setState (setIsProcessingTargetEmbeddings true) ;;
         embeddingResult ←
           await (CallCheckAndEnsureEmbeddings videoId)
                 (checkAndEnsureEmbeddings env videoId);
         setState (setTargetEmbeddingsProgress
                     (processedCount embeddingResult,
                      totalCount embeddingResult)) ;;
         setState (setEmbeddingsReady (success embeddingResult)) ;;
         setState (setIsLoadingEmbeddings false) ;;
         setState (setIsProcessingTargetEmbeddings false) ;;
         if negb (success embeddingResult) then early_return
         else
           '(textResults, videoResults) ←
             await_all2
               (CallTextToVideoEmbeddingSearch videoId)
               (textToVideoEmbeddingSearch env videoId)
               (CallVideoToVideoEmbeddingSearch videoId)
               (videoToVideoEmbeddingSearch env videoId);
           invoke CallCombineSearchResults ;;
           let combinedResults :=
             combineSearchResults textResults videoResults in
           setState (setSimilarResults combinedResults))
        (setState (setIsAnalyzing false))
  end.

(** Running the handler on a page state, with an empty call log. *)
Definition run_handleFindMatches (env : Collaborators) (st : PageState)
  : PageState * list Call :=
  match handleFindMatches env st [] with
  | (_, st', calls) => (st', calls)
  end.

End BrandMatch.

(** ** The combined ranking in binary64

    [getMatchLevel], [getMatchLevelPriority] and [combineSearchResults]
    once more, with every [number] a binary64 float and every operation
    the one that JavaScript performs on it: the product
    [maxScore * 1.15] is rounded to the nearest float, a comparison with
    [NaN] is false, [NaN] is falsy, and a comparator value that is [NaN]
    counts as [+0] in [sort]. *)

Module Binary64.
Import BrandMatch.

Definition number := float.

(** Truthiness of a number: [+0], [-0] and [NaN] are falsy. *)
Definition truthy_number (x : number) : bool :=
  negb ((x =? 0)%float || is_nan x).

(** [x || 0] for an optional number. *)
Definition or_zero (x : option number) : number :=
  match x with
  | Some v => if truthy_number v then v else 0%float
  | None => 0%float
  end.

(** [Math.max(a, b)]: [NaN] when either argument is, and [+0] above
    [-0]. *)
Definition math_max (a b : number) : number :=
  if is_nan a || is_nan b then nan
  else if (a <? b)%float then b
  else if (b <? a)%float then a
  else if get_sign a then b else a.

Section JsSort.
Context {A : Type}.
(** The comparator: a positive value puts its second argument first;
    a negative value, a zero and [NaN] keep the order of arrival. *)
Variable compareFn : A -> A -> number.

Fixpoint sort_insert (x : A) (l : list A) : list A :=
  match l with
  | [] => [x]
  | y :: l' =>
      if (0 <? compareFn x y)%float then y :: sort_insert x l'
      else x :: y :: l'
  end.

Definition js_sort (l : list A) : list A := foldr sort_insert [] l.
End JsSort.

Record EmbeddingSearchResult := mkResult {
  metadata : option Metadata;
  score : number;
  textScore : option number;
  videoScore : option number;
  originalSource : option string
}.

Definition getMatchLevel (score : number) (source : option string)
  : MatchLevel :=
  if bool_decide (source = Some "BOTH"%string) then High
  else if (1 <=? score)%float then High
  else if (0.5 <=? score)%float then Medium
  else Low.

Definition getMatchLevelPriority (level : MatchLevel) : number :=
  match level with
  | High => 3
  | Medium => 2
  | Low => 1
  end%float.

Definition videoId_of (result : EmbeddingSearchResult) : option string :=
  match metadata result with
  | Some md => tl_video_id md
  | None => None
  end.

Definition processText
  (resultMap : list (string * EmbeddingSearchResult))
  (result : EmbeddingSearchResult) : list (string * EmbeddingSearchResult) :=
  match truthy_string (videoId_of result) with
  | Some videoId =>
      map_set videoId
        {| metadata := metadata result;
           score := score result;
           textScore := Some (score result);
           videoScore := videoScore result;
           originalSource := Some "TEXT"%string |}
        resultMap
  | None => resultMap
  end.

Definition processVideo
  (resultMap : list (string * EmbeddingSearchResult))
  (result : EmbeddingSearchResult) : list (string * EmbeddingSearchResult) :=
  match truthy_string (videoId_of result) with
  | None => resultMap
  | Some videoId =>
      match map_get videoId resultMap with
      | Some existingResult =>
          let textScore' := or_zero (textScore existingResult) in
          let videoScore' := score result in
          let maxScore := math_max textScore' videoScore' in
          let boostedScore := (maxScore * 1.15)%float in
          map_set videoId
            {| metadata := metadata existingResult;
               score := boostedScore;
               textScore := Some textScore';
               videoScore := Some videoScore';
               originalSource := Some "BOTH"%string |}
            resultMap
      | None =>
          map_set videoId
            {| metadata := metadata result;
               score := score result;
               textScore := textScore result;
               videoScore := Some (score result);
               originalSource := Some "VIDEO"%string |}
            resultMap
      end
  end.

Definition compareResults (a b : EmbeddingSearchResult) : number :=
  let levelA := getMatchLevel (score a) (originalSource a) in
  let levelB := getMatchLevel (score b) (originalSource b) in
  let levelPriorityA := getMatchLevelPriority levelA in
  let levelPriorityB := getMatchLevelPriority levelB in
  if negb (levelPriorityA =? levelPriorityB)%float
  then (levelPriorityB - levelPriorityA)%float
  else (score b - score a)%float.

Definition buildResultMap (textResults videoResults : list EmbeddingSearchResult)
  : list (string * EmbeddingSearchResult) :=
  foldl processVideo (foldl processText [] textResults) videoResults.

Definition combineSearchResults
  (textResults videoResults : list EmbeddingSearchResult)
  : list EmbeddingSearchResult :=
  js_sort compareResults
    (map_values (buildResultMap textResults videoResults)).

(** A similarity hit as a backend delivers it: an id and a score. *)
Definition hit (id : string) (s : number) : EmbeddingSearchResult :=
  mkResult (Some (mkMetadata (Some id))) s None None None.

(** What the tests of the spec look at in a combined entry. *)
Definition summary (e : EmbeddingSearchResult)
  : option string * option string * number * MatchLevel :=
  (videoId_of e, originalSource e, score e,
   getMatchLevel (score e) (originalSource e)).

(** The tier priority of an entry, as the comparator computes it. *)
Definition tier_priority (e : EmbeddingSearchResult) : number :=
  getMatchLevelPriority (getMatchLevel (score e) (originalSource e)).

(** The order of the combined ranking: [a] may stand before [b] when its
    tier priority is higher, or equal with a score at least as high. *)
Definition ranked_before (a b : EmbeddingSearchResult) : Prop :=
  (tier_priority b <? tier_priority a)%float = true \/
  ((tier_priority a =? tier_priority b)%float = true /\
   (score b <=? score a)%float = true).

(** Every score of the list is a number: none is [NaN]. *)
Definition scores_are_numbers (l : list EmbeddingSearchResult) : Prop :=
  Forall (fun r => is_nan (score r) = false) l.

End Binary64.

(** ** Semantic search page *)

Module SemanticSearch.

Inductive FormatFilter := vertical | horizontal.

#[global] Instance FormatFilter_eq_dec : EqDecision FormatFilter.
Proof. solve_decision. Defined.

(** [VideoDetails]: of [system_metadata] the page logic reads only the
    dimensions. *)
Record SystemMetadata := mkSystemMetadata {
  height : option number;
  width : option number
}.

Record VideoDetails := mkVideoDetails {
  system_metadata : option SystemMetadata
}.

Record SearchResult := mkSearchResult {
  video_id : string;
  thumbnail_url : string;
  start : number;
  end_ : number;
  confidence : string;
  score : number;
  index_id : string;
  videoDetails : option VideoDetails;
  format : option FormatFilter
}.

(** *** Identity key

    The page keys a hit by the string
    [`${item.video_id}_${item.start}_${item.end}`].  The decimal rendering
    of a number has no underscore and two numbers render alike exactly
    when they are equal, so two such strings are equal exactly when the
    ids are equal and the two numbers are; the key is kept as the
    triple. *)
Definition Key : Type := string * number * number.

Definition itemKey (item : SearchResult) : Key :=
  (video_id item, start item, end_ item).

Definition key_eqb (k1 k2 : Key) : bool :=
  match k1, k2 with
  | (v1, s1, e1), (v2, s2, e2) =>
      String.eqb v1 v2 && Qeq_bool s1 s2 && Qeq_bool e1 e2
  end.

(** [new Set(keys).has(k)] *)
Definition set_has (keys : list Key) (k : Key) : bool :=
  existsb (key_eqb k) keys.

(** The updater passed to [setEnhancedResults] by [loadMoreResults]. *)
Definition mergeResults (prev newResultsWithDetails : list SearchResult)
  : list SearchResult :=
  let existingIds := map itemKey prev in
  let uniqueNewResults :=
    List.filter (fun item => negb (set_has existingIds (itemKey item)))
      newResultsWithDetails in
  prev ++ uniqueNewResults.

(** *** Format derivation *)

Definition deriveFormat (videoDetails : VideoDetails) : option FormatFilter :=
  match system_metadata videoDetails with
  | None => None
  | Some sm =>
      match width sm, height sm with
      | Some w, Some h =>
          if truthy_number w && truthy_number h then
            if Qle_bool h w then Some horizontal else Some vertical
          else None
      | _, _ => None
      end
  end.

(** *** Page state *)

Record PageState := mkPage {
  enhancedResults : list SearchResult;
  isSearching : bool;
  hasSearched : bool;
  error : option string;
  totalResults : number * number * number;
  currentPage : Z;
  hasMoreResults : bool;
  nextPageTokens : gmap string (option string);
  isLoadingMore : bool
}.

Definition setEnhancedResults (l : list SearchResult) (st : PageState) :=
  mkPage l (isSearching st) (hasSearched st) (error st) (totalResults st)
    (currentPage st) (hasMoreResults st) (nextPageTokens st)
    (isLoadingMore st).

Definition setIsSearching (b : bool) (st : PageState) :=
  mkPage (enhancedResults st) b (hasSearched st) (error st)
    (totalResults st) (currentPage st) (hasMoreResults st)
    (nextPageTokens st) (isLoadingMore st).

Definition setHasSearched (b : bool) (st : PageState) :=
  mkPage (enhancedResults st) (isSearching st) b (error st)
    (totalResults st) (currentPage st) (hasMoreResults st)
    (nextPageTokens st) (isLoadingMore st).

Definition setError (e : option string) (st : PageState) :=
  mkPage (enhancedResults st) (isSearching st) (hasSearched st) e
    (totalResults st) (currentPage st) (hasMoreResults st)
    (nextPageTokens st) (isLoadingMore st).

Definition setTotalResults (t : number * number * number) (st : PageState) :=
  mkPage (enhancedResults st) (isSearching st) (hasSearched st) (error st)
    t (currentPage st) (hasMoreResults st) (nextPageTokens st)
    (isLoadingMore st).

Definition setCurrentPage (p : Z) (st : PageState) :=
  mkPage (enhancedResults st) (isSearching st) (hasSearched st) (error st)
    (totalResults st) p (hasMoreResults st) (nextPageTokens st)
    (isLoadingMore st).

Definition setHasMoreResults (b : bool) (st : PageState) :=
  mkPage (enhancedResults st) (isSearching st) (hasSearched st) (error st)
    (totalResults st) (currentPage st) b (nextPageTokens st)
    (isLoadingMore st).

Definition setNextPageTokens (t : gmap string (option string))
  (st : PageState) :=
  mkPage (enhancedResults st) (isSearching st) (hasSearched st) (error st)
    (totalResults st) (currentPage st) (hasMoreResults st) t
    (isLoadingMore st).

Definition setIsLoadingMore (b : bool) (st : PageState) :=
  mkPage (enhancedResults st) (isSearching st) (hasSearched st) (error st)
    (totalResults st) (currentPage st) (hasMoreResults st)
    (nextPageTokens st) b.

(** *** Responses of the search endpoints *)

Record PageInfo := mkPageInfo { next_page_token : option string }.

(** The body of a [/api/search/byToken] response. *)
Record TokenPage := mkTokenPage {
  tp_data : option (list SearchResult);
  tp_pageInfo : option PageInfo
}.

Record IndexInfo := mkIndexInfo { total_results : option number }.

(** The body of a [/api/search/text] response. *)
Record SearchBody := mkSearchBody {
  sb_data : option (list SearchResult);
  sb_pageInfoByIndex : option (gmap string IndexInfo);
  sb_nextPageTokens : option (gmap string (option string));
  sb_hasMore : option bool
}.

(** [Object.values(tokens).some((token) => token !== null)] *)
Definition some_token_not_null (tokens : gmap string (option string))
  : bool :=
  existsb (fun kv => match snd kv with Some _ => true | None => false end)
    (map_to_list tokens).

(** Truthiness of a stored token read by property access: an absent
    property, [null] and [""] are falsy. *)
Definition truthy_token (t : option (option string)) : option string :=
  match t with
  | Some o => truthy_string o
  | None => None
  end.

(** [s.includes(sub)] *)
Definition includes (sub s : string) : bool :=
  match String.index 0 sub s with Some _ => true | None => false end.

Definition is_white_space (c : Ascii.ascii) : bool :=
  match Ascii.nat_of_ascii c with
  | 9%nat | 10%nat | 11%nat | 12%nat | 13%nat | 32%nat => true
  | _ => false
  end.

(** [!s.trim()]: the string is empty once its white space is trimmed. *)
Fixpoint blank (s : string) : bool :=
  match s with
  | EmptyString => true
  | String c s' => is_white_space c && blank s'
  end.

Section Page.
(** [process.env.NEXT_PUBLIC_BRAND_INDEX_ID] and
    [process.env.NEXT_PUBLIC_CREATOR_INDEX_ID]. *)
Variable brandIndexId creatorIndexId : option string.
Definition itemsPerPage : nat := 24.

(** The collaborators of the page. *)
Variable fetchVideoDetails : string -> string -> Outcome VideoDetails.
Variable searchByToken :
  string -> option string -> Outcome (option TokenPage).
Variable searchText : string -> Outcome (option SearchBody).

(** A property key made from a possibly undefined id. *)
Definition property_key (id : option string) : string :=
  match id with Some s => s | None => "undefined"%string end.

(** [result.index_id === id] *)
Definition index_is (id : option string) (result : SearchResult) : bool :=
  match id with
  | Some s => String.eqb (index_id result) s
  | None => false
  end.

(** The function mapped over the results by
    [fetchVideoDetailsForResults]. *)
Definition withDetails (result : SearchResult) : SearchResult :=
  match fetchVideoDetails (video_id result) (index_id result) with
  | Resolved videoDetails =>
      mkSearchResult (video_id result) (thumbnail_url result)
        (start result) (end_ result) (confidence result) (score result)
        (index_id result) (Some videoDetails) (deriveFormat videoDetails)
  | Rejected _ => result
  end.

(** [fetchVideoDetailsForResults]: every inner promise handles its own
    failure, so the function always delivers the list. *)
Definition fetchVideoDetailsForResults (results : list SearchResult)
  (isLoadMore : bool) (st : PageState) : list SearchResult * PageState :=
  let updatedResults := map withDetails results in
  (updatedResults,
   if negb isLoadMore then setEnhancedResults updatedResults st else st).

(** The body of [responses.forEach] in [loadMoreResults]. *)
Definition collectResponse
  (acc : list SearchResult * gmap string (option string))
  (response : option string * option TokenPage)
  : list SearchResult * gmap string (option string) :=
  let '(newResults, newTokens) := acc in
  let '(indexId, data) := response in
  match data, truthy_string indexId with
  | Some body, Some indexId' =>
      match tp_data body with
      | Some hits =>
          (newResults ++ hits,
           <[indexId' :=
               truthy_string
                 (match tp_pageInfo body with
                  | Some pi => next_page_token pi
                  | None => None
                  end)]> newTokens)
      | None => acc
      end
  | _, _ => acc
  end.

(** [Promise.all] over the requests that were issued. *)
Fixpoint promise_all {A} (l : list (Outcome A)) : Outcome (list A) :=
  match l with
  | [] => Resolved []
  | Rejected e :: _ => Rejected e
  | Resolved a :: l' =>
      match promise_all l' with
      | Resolved r => Resolved (a :: r)
      | Rejected e => Rejected e
      end
  end.

Definition request (indexId : option string) (token : string)
  : Outcome (option string * option TokenPage) :=
  match searchByToken token indexId with
  | Resolved data => Resolved (indexId, data)
  | Rejected e => Rejected e
  end.

Definition loadMoreResults (st : PageState) : PageState :=
  if negb (hasMoreResults st) || isLoadingMore st then st
  else
    let st1 := setIsLoadingMore true st in
    let brandToken :=
      truthy_token (nextPageTokens st !! property_key brandIndexId) in
    let creatorToken :=
      truthy_token (nextPageTokens st !! property_key creatorIndexId) in
    let requests :=
      match brandToken with
      | Some t => [request brandIndexId t]
      | None => []
      end ++
      match creatorToken with
      | Some t => [request creatorIndexId t]
      | None => []
      end in
    if (length requests =? 0)%nat then
      setIsLoadingMore false (setHasMoreResults false st1)
    else
      match promise_all requests with
      | Rejected _ => setIsLoadingMore false st1
      | Resolved responses =>
          let '(newResults, newTokens) :=
            foldl collectResponse ([], nextPageTokens st) responses in
          let '(newResultsWithDetails, st2) :=
            fetchVideoDetailsForResults newResults true st1 in
          if (0 <? length newResultsWithDetails)%nat then
            setIsLoadingMore false
              (setHasMoreResults (some_token_not_null newTokens)
                 (setCurrentPage (currentPage st + 1)%Z
                    (setNextPageTokens newTokens
                       (setEnhancedResults
                          (mergeResults (enhancedResults st2)
                             newResultsWithDetails) st2))))
          else
            setIsLoadingMore false (setHasMoreResults false st2)
      end.

(** [pageInfo[id]?.total_results || 0] *)
Definition total_of (pageInfo : gmap string IndexInfo)
  (id : option string) : number :=
  or_zero (match pageInfo !! property_key id with
           | Some info => total_results info
           | None => None
           end).

Definition errorMessage (thrown : option string) : string :=
  match thrown with
  | Some message =>
      if includes "500" message then
        "Search service is temporarily unavailable. Please try again in a few moments."
      else if includes "429" message then
        "Too many requests. Please wait a moment before searching again."
      else if includes "401" message then
        "Authentication error. Please contact support."
      else "Search failed. Please try again."
  | None => "An unexpected error occurred. Please try again."
  end%string.

(** The fallback of [handleTextSearch] when the server sends no
    [hasMore]: the page is full. *)
Definition clientHasMore (allResults : list SearchResult) : bool :=
  let brandResults := List.filter (index_is brandIndexId) allResults in
  let creatorResults :=
    List.filter
      (fun r => negb (index_is brandIndexId r)
                && index_is creatorIndexId r) allResults in
  (itemsPerPage <=? length allResults)%nat
  && ((length brandResults =? itemsPerPage)%nat
      || (length creatorResults =? itemsPerPage)%nat).

Definition handleTextSearch (searchQuery : string) (st : PageState)
  : PageState :=
  if blank searchQuery then st
  else
    let st1 :=
      setHasSearched true
        (setEnhancedResults [] (setError None (setIsSearching true st))) in
    match searchText searchQuery with
    | Rejected thrown =>
        setIsSearching false (setError (Some (errorMessage thrown)) st1)
    | Resolved (Some (mkSearchBody (Some allResults) pageInfoByIndex
                        tokens serverHasMore)) =>
        let totalBrands :=
          match pageInfoByIndex with
          | Some pageInfo => total_of pageInfo brandIndexId
          | None => 0
          end in
        let totalCreators :=
          match pageInfoByIndex with
          | Some pageInfo => total_of pageInfo creatorIndexId
          | None => 0
          end in
        let totalAll := totalBrands + totalCreators in
        let hasMore :=
          match serverHasMore with
          | Some b => b
          | None => clientHasMore allResults
          end in
        let st2 :=
          setHasMoreResults hasMore
            (setNextPageTokens (default ∅ tokens)
               (setCurrentPage 1%Z
                  (setEnhancedResults allResults
                     (setTotalResults
                        (totalAll, totalBrands, totalCreators) st1)))) in
        setIsSearching false
          (snd (fetchVideoDetailsForResults allResults false st2))
    | Resolved _ =>
        setIsSearching false
          (setHasMoreResults false
             (setTotalResults (0, 0, 0) (setEnhancedResults [] st1)))
    end.

(** *** The filtered view

    Arrays are objects.  [filteredResults] starts from the array held
    by the [enhancedResults] state, [filter] allocates a fresh array,
    and [sort] reorders the array it is called on and returns it.  The
    store [σ] holds the contents of every array, an array reference is
    an index into it. *)

Inductive IndexFilter := all | brands | creators.

Definition array_filter (p : SearchResult -> bool)
  (σ : list (list SearchResult)) (a : nat)
  : list (list SearchResult) * nat :=
  (σ ++ [List.filter p (default [] (σ !! a))], length σ).

Definition array_sort (compareFn : SearchResult -> SearchResult -> number)
  (σ : list (list SearchResult)) (a : nat)
  : list (list SearchResult) * nat :=
  (alter (js_sort compareFn) a σ, a).

Definition lower_ascii (c : Ascii.ascii) : Ascii.ascii :=
  let n := Ascii.nat_of_ascii c in
  if (65 <=? n)%nat && (n <=? 90)%nat then Ascii.ascii_of_nat (n + 32)
  else c.

(** [s.toLowerCase()], on the letters that can make up the three
    confidence words. *)
Fixpoint toLowerCase (s : string) : string :=
  match s with
  | EmptyString => EmptyString
  | String c s' => String (lower_ascii c) (toLowerCase s')
  end.

Definition getConfidencePriority (confidence : string) : Z :=
  let c := toLowerCase confidence in
  if String.eqb c "high" then 3
  else if String.eqb c "medium" then 2
  else if String.eqb c "low" then 1
  else 0.

(** The comparator handed to [sort] by [filteredResults]. *)
Definition compareConfidence (a b : SearchResult) : number :=
  let confidenceDiff :=
    (getConfidencePriority (confidence b)
     - getConfidencePriority (confidence a))%Z in
  if (confidenceDiff =? 0)%Z then
    or_zero (Some (score b)) - or_zero (Some (score a))
  else inject_Z confidenceDiff.

(** [formatFilters.includes(result.format)], after the guard
    [if (!result.format) return false]. *)
Definition matchesFormat (formatFilters : list FormatFilter)
  (result : SearchResult) : bool :=
  match format result with
  | None => false
  | Some f => bool_decide (f ∈ formatFilters)
  end.

Definition matchesIndex (activeFilter : IndexFilter)
  (result : SearchResult) : bool :=
  match activeFilter with
  | brands => index_is brandIndexId result
  | creators => index_is creatorIndexId result
  | all => true
  end.

(** [filteredResults]: from the store and the reference held by the
    [enhancedResults] state to the store afterwards and the reference
    of the view. *)
Definition filteredResults (σ : list (list SearchResult))
  (enhancedResults : nat) (activeFilter : IndexFilter)
  (activeFilters : list FormatFilter)
  : list (list SearchResult) * nat :=
  let results := enhancedResults in
  let '(σ1, results1) :=
    match activeFilter with
    | all => (σ, results)
    | _ => array_filter (matchesIndex activeFilter) σ results
    end in
  let '(σ2, results2) :=
    if (0 <? length activeFilters)%nat then
      let formatFilters :=
        List.filter
          (fun f => bool_decide (f = vertical)
                    || bool_decide (f = horizontal)) activeFilters in
      if (0 <? length formatFilters)%nat then
        array_filter (matchesFormat formatFilters) σ1 results1
      else (σ1, results1)
    else (σ1, results1) in
  array_sort compareConfidence σ2 results2.

End Page.

End SemanticSearch.

(** ** Further controls of the semantic search page *)

(** [Math.trunc], [x % y] and the rendering of an integer.  [String(n)] is
    the decimal numeral for every integer in the safe range, which is where
    the floors of the times shown by the pages lie. *)
Definition js_trunc (x : number) : Z :=
  if Qle_bool 0 x then Qfloor x else Qceiling x.

Definition js_rem (x y : number) : number :=
  x - y * inject_Z (js_trunc (x / y)).

Definition integer_to_string (n : Z) : string := pretty n.

Fixpoint repeat_char (n : nat) (c : Ascii.ascii) : string :=
  match n with
  | O => EmptyString
  | S n' => String c (repeat_char n' c)
  end.

(** [s.padStart(targetLength, c)] for a one-character pad. *)
Definition padStart (targetLength : nat) (c : Ascii.ascii) (s : string)
  : string :=
  repeat_char (targetLength - String.length s) c +:+ s.

Module SearchControls.
Import SemanticSearch.

(** The updater passed to [setActiveFilters] by [toggleFormatFilter]. *)
Definition toggleFormatFilter (filter : FormatFilter)
  (prev : list FormatFilter) : list FormatFilter :=
  if bool_decide (filter ∈ prev)
  then List.filter (fun f => negb (bool_decide (f = filter))) prev
  else prev ++ [filter].

(** [clearSearch], on the page state and the two filter selections (the
    query text and the image inputs it also resets are inputs of the
    handlers here). *)
Definition clearSearch
  (s : PageState * IndexFilter * list FormatFilter)
  : PageState * IndexFilter * list FormatFilter :=
  let '(st, _, _) := s in
  (setIsLoadingMore false
     (setNextPageTokens ∅
        (setHasMoreResults false
           (setCurrentPage 1%Z
              (setHasSearched false
                 (setTotalResults (0, 0, 0)
                    (setEnhancedResults [] st)))))),
   all, []).

Section Counters.
Variable brandIndexId creatorIndexId : option string.

(** The three counters of the segment control. *)
Definition allResultCount (st : PageState) : number :=
  let '(totalAll, _, _) := totalResults st in
  if negb (Qle_bool totalAll 0) then totalAll
  else inject_Z (Z.of_nat (length (enhancedResults st))).

Definition brandResultCount (st : PageState) : number :=
  let '(_, totalBrands, _) := totalResults st in
  match truthy_string brandIndexId with
  | None => 0
  | Some _ =>
      if negb (Qle_bool totalBrands 0) then totalBrands
      else inject_Z (Z.of_nat
             (length (List.filter (index_is brandIndexId)
                        (enhancedResults st))))
  end.

Definition creatorResultCount (st : PageState) : number :=
  let '(_, _, totalCreators) := totalResults st in
  match truthy_string creatorIndexId with
  | None => 0
  | Some _ =>
      if negb (Qle_bool totalCreators 0) then totalCreators
      else inject_Z (Z.of_nat
             (length (List.filter (index_is creatorIndexId)
                        (enhancedResults st))))
  end.
End Counters.

(** [formatTime] of the search page. *)
Definition formatTime (seconds : number) : string :=
  let mins := Qfloor (seconds / 60) in
  let secs := Qfloor (js_rem seconds 60) in
  integer_to_string mins +:+ ":" +:+
  padStart 2 (Ascii.ascii_of_nat 48) (integer_to_string secs).

End SearchControls.

(** ** The result panel of the match page *)

(** [showResults] of the match page. *)
Definition showResults (st : BrandMatch.PageState) : bool :=
  (0 <? length (BrandMatch.similarResults st))%nat
  && negb (BrandMatch.isAnalyzing st)
  && BrandMatch.embeddingsReady st.

(** ** Video player *)

Module VideoPlayer.

Record Props := mkProps {
  startTime : option number;
  endTime : option number
}.

Record PlayerState := mkPlayer {
  playing : bool;
  muted : bool;
  currentTime : number;
  ended : bool;
  loaded : number
}.

Definition setPlaying (b : bool) (st : PlayerState) : PlayerState :=
  mkPlayer b (muted st) (currentTime st) (ended st) (loaded st).

Definition setMuted (b : bool) (st : PlayerState) : PlayerState :=
  mkPlayer (playing st) b (currentTime st) (ended st) (loaded st).

Definition setCurrentTime (t : number) (st : PlayerState) : PlayerState :=
  mkPlayer (playing st) (muted st) t (ended st) (loaded st).

Definition setEnded (b : bool) (st : PlayerState) : PlayerState :=
  mkPlayer (playing st) (muted st) (currentTime st) b (loaded st).

Definition setLoaded (x : number) (st : PlayerState) : PlayerState :=
  mkPlayer (playing st) (muted st) (currentTime st) (ended st) x.

(** [startTime != null && endTime != null && endTime > startTime] *)
Definition shouldLoopSegment (p : Props) : bool :=
  match startTime p, endTime p with
  | Some s, Some e => negb (Qle_bool e s)
  | _, _ => false
  end.

(** [handleTimeUpdate].  The inputs are the [currentTime] of the video
    element and whether assigning to it throws; the results are the new
    state, the time assigned to the element (if any) and the time handed to
    [onTimeUpdate].  The threshold [endTime - 0.05] is the exact
    difference; what is proved of the handler does not depend on where
    below [endTime] the threshold lies. *)
Definition handleTimeUpdate (p : Props) (videoCurrentTime : option number)
  (seekThrows : bool) (st : PlayerState)
  : PlayerState * option number * number :=
  let time := default 0 videoCurrentTime in
  match shouldLoopSegment p, endTime p, startTime p with
  | true, Some e, Some s =>
      if Qle_bool (e - 0.05) time then
        let '(seek, time') :=
          if seekThrows then (None, time) else (Some s, s) in
        let st1 := setEnded false st in
        let st2 := if negb (playing st) then setPlaying true st1 else st1 in
        (setCurrentTime time' st2, seek, time')
      else (setCurrentTime time st, None, time)
  | _, _, _ => (setCurrentTime time st, None, time)
  end.

(** [handleProgress], from the [duration] of the video element and its
    buffered ranges. *)
Definition handleProgress (videoDuration : number)
  (buffered : list (number * number)) (st : PlayerState) : PlayerState :=
  if negb (truthy_number videoDuration) then st
  else
    match last buffered with
    | None => st
    | Some (_, loadedSeconds) =>
        setLoaded (Qmin (loadedSeconds / videoDuration) 1) st
    end.

Definition togglePlayPause (st : PlayerState) : PlayerState :=
  let newPlayingState := negb (playing st) in
  if newPlayingState then setPlaying true st else setPlaying false st.

Definition toggleMute (st : PlayerState) : PlayerState :=
  let newMutedState := negb (muted st) in
  if newMutedState then setMuted true st
  else if negb (playing st) then setPlaying true (setMuted false st)
  else setMuted false st.

(** [formatTime] of the player. *)
Definition formatTime (seconds : number) : string :=
  let mins := Qfloor (seconds / 60) in
  let secs := Qfloor (js_rem seconds 60) in
  integer_to_string mins +:+ ":" +:+
  (if (secs <? 10)%Z then "0" else "") +:+ integer_to_string secs.

End VideoPlayer.

(** ** Heatmap *)

Module Heatmap.

Record Bucket := mkBucket {
  start : number;
  end_ : number;
  value : number;
  brands : option (list string)
}.

Definition getColorForValue (value maxValue : number) : string :=
  if Qeq_bool maxValue 0 then "rgba(255, 255, 255, 1)"
  else
    let normalizedValue := Qmin (value / maxValue) 1 in
    if Qle_bool normalizedValue 0.1 then "rgba(255, 255, 255, 1)"
    else if Qle_bool normalizedValue 0.2 then "rgba(29, 28, 27, 0.1)"
    else if Qle_bool normalizedValue 0.3 then "rgba(29, 28, 27, 0.2)"
    else if Qle_bool normalizedValue 0.4 then "rgba(29, 28, 27, 0.3)"
    else if Qle_bool normalizedValue 0.5 then "rgba(29, 28, 27, 0.4)"
    else if Qle_bool normalizedValue 0.6 then "rgba(29, 28, 27, 0.6)"
    else if Qle_bool normalizedValue 0.7 then "rgba(29, 28, 27, 0.7)"
    else if Qle_bool normalizedValue 0.8 then "rgba(29, 28, 27, 0.8)"
    else if Qle_bool normalizedValue 0.9 then "rgba(29, 28, 27, 0.9)"
    else "rgba(29, 28, 27, 1)".

(** [Math.max(...row.buckets.map((b) => b.value), 0.1)] *)
Definition rowMaxValue (buckets : list Bucket) : number :=
  foldr Qmax 0.1 (map value buckets).

(** The background colour of the cell of a row at a column. *)
Definition cellColor (buckets : list Bucket) (colIndex : nat) : string :=
  let maxValue := rowMaxValue buckets in
  let bucket := buckets !! colIndex in
  let value' := or_zero (value <$> bucket) in
  getColorForValue value' maxValue.

End Heatmap.

(** The order of the filtered view: [a] may stand before [b] when its
    confidence priority is higher, or equal with a score at least as
    high. *)
Definition confidence_ranked (a b : SemanticSearch.SearchResult) : Prop :=
  (SemanticSearch.getConfidencePriority (SemanticSearch.confidence b)
   < SemanticSearch.getConfidencePriority (SemanticSearch.confidence a))%Z \/
  (SemanticSearch.getConfidencePriority (SemanticSearch.confidence a)
   = SemanticSearch.getConfidencePriority (SemanticSearch.confidence b) /\
   SemanticSearch.score b <= SemanticSearch.score a).

(** ** Scenario data and specification predicates *)

Module Scenario.
Import BrandMatch.

(** A similarity hit as a backend delivers it: an id and a score. *)
Definition hit (id : string) (s : number) : EmbeddingSearchResult :=
  mkResult (Some (mkMetadata (Some id))) s None None None.

(** A similarity hit whose metadata carries no [tl_video_id]. *)
Definition hit_without_id (s : number) : EmbeddingSearchResult :=
  mkResult (Some (mkMetadata None)) s None None None.

(** What the tests of the spec look at in a combined entry. *)
Definition summary (e : EmbeddingSearchResult)
  : option string * option string * number * MatchLevel :=
  (videoId_of e, originalSource e, Qred (score e),
   getMatchLevel (score e) (originalSource e)).
End Scenario.

(** A result has an id that [combineSearchResults] accepts. *)
Definition has_video_id (r : BrandMatch.EmbeddingSearchResult) : bool :=
  match truthy_string (BrandMatch.videoId_of r) with
  | Some _ => true
  | None => false
  end.

(** ** Vocabulary of the statements about the match page *)

Section MatchVocabulary.
Import BrandMatch.
Implicit Types (m : list (string * EmbeddingSearchResult))
  (r e : EmbeddingSearchResult) (l : list EmbeddingSearchResult)
  (k : string).

(** Every entry of the map sits under its own video id. *)
Definition keyed m : Prop :=
  Forall (fun kv => truthy_string (videoId_of (snd kv)) = Some (fst kv)) m.

(** The three object literals of [combineSearchResults]. *)
Definition asText r : EmbeddingSearchResult :=
  {| metadata := metadata r; score := score r;
     textScore := Some (score r); videoScore := videoScore r;
     originalSource := Some "TEXT"%string |}.

Definition asVideo r : EmbeddingSearchResult :=
  {| metadata := metadata r; score := score r;
     textScore := textScore r; videoScore := Some (score r);
     originalSource := Some "VIDEO"%string |}.

Definition asBoth (existingResult r : EmbeddingSearchResult)
  : EmbeddingSearchResult :=
  {| metadata := metadata existingResult;
     score := Qmax (or_zero (textScore existingResult)) (score r) * 1.15;
     textScore := Some (or_zero (textScore existingResult));
     videoScore := Some (score r);
     originalSource := Some "BOTH"%string |}.

(** The result carries the accepted id [k]. *)
Definition id_is k r : bool :=
  bool_decide (truthy_string (videoId_of r) = Some k).

(** The accepted ids of a result list, in order, with repetitions. *)
Definition video_ids l : list string :=
  omap (fun r => truthy_string (videoId_of r)) l.

(** The last, and the first, result of a list that carries the id [k]. *)
Fixpoint last_with_id k l : option EmbeddingSearchResult :=
  match l with
  | [] => None
  | r :: l' =>
      match last_with_id k l' with
      | Some x => Some x
      | None => if id_is k r then Some r else None
      end
  end.

Definition first_with_id k l : option EmbeddingSearchResult :=
  List.find (id_is k) l.

(** What every entry of the combined ranking satisfies, by its source. *)
Definition score_law e : Prop :=
  (originalSource e = Some "TEXT"%string /\ textScore e = Some (score e)) \/
  (originalSource e = Some "VIDEO"%string /\ videoScore e = Some (score e)) \/
  (originalSource e = Some "BOTH"%string /\
   exists t v, textScore e = Some t /\ videoScore e = Some v /\
               score e = Qmax t v * 1.15).

(** A call to one of the two similarity searches or to the combiner. *)
Definition is_search_call (c : Call) : bool :=
  match c with
  | CallCheckAndEnsureEmbeddings _ => false
  | CallTextToVideoEmbeddingSearch _ => true
  | CallVideoToVideoEmbeddingSearch _ => true
  | CallCombineSearchResults => true
  end.

(** A page at rest: a selected video and the matches of an earlier run. *)
Definition page0 (selected : option string)
  (previous : list EmbeddingSearchResult) : PageState :=
  mkPage selected false previous false false false (0, 0)%Z.

(** Collaborators whose readiness check reports failure, and success. *)
Definition env_not_ready : Collaborators :=
  mkCollaborators
    (fun _ => Resolved (mkReadiness 3 5 false))
    (fun _ => Resolved [Scenario.hit "v1" 0.8])
    (fun _ => Resolved [Scenario.hit "v1" 0.6; Scenario.hit "v2" 1.2]).

Definition env_ready : Collaborators :=
  mkCollaborators
    (fun _ => Resolved (mkReadiness 5 5 true))
    (fun _ => Resolved [Scenario.hit "v1" 0.8])
    (fun _ => Resolved [Scenario.hit "v1" 0.6; Scenario.hit "v2" 1.2]).

End MatchVocabulary.

(** ** Vocabulary of the statements about the search page *)

Section SearchVocabulary.
Import SemanticSearch.
Implicit Types (S B l : list SearchResult) (x y : SearchResult).

(** A hit of the semantic search, as the search endpoints deliver it. *)
Definition hit (id : string) (s e : number) (conf : string) (sc : number)
  (index : string) : SearchResult :=
  mkSearchResult id "" s e conf sc index None None.

(** The number of hits of [l] that carry the key [k]. *)
Definition count_key (k : Key) l : nat :=
  length (List.filter (fun x => key_eqb (itemKey x) k) l).

(** No two hits of the list carry the same key. *)
Fixpoint unique_keys l : Prop :=
  match l with
  | [] => True
  | x :: l' => set_has (map itemKey l') (itemKey x) = false /\ unique_keys l'
  end.

(** A collaborator that delivers the details of a portrait video for
    every hit. *)
Definition details_portrait : string -> string -> Outcome VideoDetails :=
  fun _ _ =>
    Resolved (mkVideoDetails (Some (mkSystemMetadata (Some 1920) (Some 1080)))).

(** A page state after a first search, with the given hits and tokens. *)
Definition searched (results : list SearchResult) (more : bool)
  (tokens : gmap string (option string)) : PageState :=
  mkPage results false true None (0, 0, 0) 1 more tokens false.

(** At least one partition has a stored continuation token that is not
    null; a partition without an entry in the table has none. *)
Definition stored_token_non_null (tokens : gmap string (option string))
  : Prop :=
  exists k t, tokens !! k = Some (Some t).

(** The [hasMoreResults] flag says what the token table says. *)
Definition hasMore_agrees (st : PageState) : Prop :=
  hasMoreResults st = true <-> stored_token_non_null (nextPageTokens st).

(** A first page whose server flag says that more is available although
    no continuation token comes with it. *)
Definition body_more_without_tokens : string -> Outcome (option SearchBody) :=
  fun _ =>
    Resolved (Some (mkSearchBody
                      (Some [hit "v1" 10 20 "high" 0.9 "brand"])
                      None None (Some true))).

(** A continuation page without hits. *)
Definition page_without_hits
  : string -> option string -> Outcome (option TokenPage) :=
  fun _ _ =>
    Resolved (Some (mkTokenPage (Some []) (Some (mkPageInfo None)))).


Section Round.
Variable brandIndexId creatorIndexId : option string.
Variable searchByToken :
  string -> option string -> Outcome (option TokenPage).


End Round.

Section View.
Variable brandIndexId creatorIndexId : option string.

(** The hits that the two filters of [filteredResults] let through. *)
Definition filtered_hits (l : list SearchResult) (activeFilter : IndexFilter)
  (activeFilters : list FormatFilter) : list SearchResult :=
  let l1 :=
    match activeFilter with
    | all => l
    | _ => List.filter (matchesIndex brandIndexId creatorIndexId activeFilter) l
    end in
  match activeFilters with
  | [] => l1
  | _ => List.filter (matchesFormat activeFilters) l1
  end.

End View.

(** Neither filter is active. *)
Definition no_filter (activeFilter : IndexFilter)
  (activeFilters : list FormatFilter) : bool :=
  match activeFilter, activeFilters with
  | all, [] => true
  | _, _ => false
  end.

(** Video details that carry the given width and height. *)
Definition dims (w h : number) : VideoDetails :=
  mkVideoDetails (Some (mkSystemMetadata (Some h) (Some w))).

(** The details carry a width [w] and a height [h], neither of them 0. *)
Definition has_dimensions (d : VideoDetails) (w h : number) : Prop :=
  exists sm, system_metadata d = Some sm /\
             width sm = Some w /\ height sm = Some h /\
             ~ w == 0 /\ ~ h == 0.

End SearchVocabulary.

(** The comparator lets [x] stand before [y]. *)
Definition sorts_before {A : Type} (compareFn : A -> A -> number) (x y : A)
  : Prop := compareFn x y <= 0.

(** ** Facts about [Array.prototype.sort] *)

Section JsSortFacts.
Context {A : Type}.
Variable compareFn : A -> A -> number.

#[local] Abbreviation before := (sorts_before compareFn).

Lemma sort_insert_perm (x : A) (l : list A) :
  Permutation (sort_insert compareFn x l) (x :: l).
Proof.
  induction l as [|y l IH]; simpl; [reflexivity|].
  destruct (Qle_bool (compareFn x y) 0); [reflexivity|].
  rewrite IH. apply perm_swap.
Qed.

Lemma js_sort_perm (l : list A) : Permutation (js_sort compareFn l) l.
Proof.
  induction l as [|x l IH]; simpl; [reflexivity|].
  rewrite sort_insert_perm. now constructor.
Qed.

Hypothesis before_total : forall x y, before x y \/ before y x.
Hypothesis before_trans : forall x y z, before x y -> before y z -> before x z.

Lemma sort_insert_sorted (x : A) (l : list A) :
  StronglySorted before l -> StronglySorted before (sort_insert compareFn x l).
Proof.
  induction 1 as [|y l Hs IH Hall]; simpl.
  - repeat constructor.
  - destruct (Qle_bool (compareFn x y) 0) eqn:E.
    + apply Qle_bool_iff in E.
      constructor; [now constructor|].
      constructor; [exact E|].
      eapply Forall_impl; [exact Hall|].
      intros z Hz. eapply before_trans; eauto.
    + constructor; [exact IH|].
      assert (Hyx : before y x).
      { destruct (before_total x y) as [Hxy|Hyx]; [|exact Hyx].
        apply Qle_bool_iff in Hxy. congruence. }
      eapply Permutation_Forall; [symmetry; apply sort_insert_perm|].
      now constructor.
Qed.

Lemma js_sort_sorted (l : list A) : StronglySorted before (js_sort compareFn l).
Proof.
  induction l as [|x l IH]; simpl; [constructor|].
  now apply sort_insert_sorted.
Qed.
End JsSortFacts.

Lemma StronglySorted_weaken {A : Type} (R S : A -> A -> Prop) (l : list A) :
  (forall x y, R x y -> S x y) -> StronglySorted R l -> StronglySorted S l.
Proof.
  intros HRS. induction 1 as [|x l Hs IH Hall]; constructor; [exact IH|].
  eapply Forall_impl; [exact Hall|]. intros y Hy. now apply HRS.
Qed.

(** ** Tier classification and the order of the combined ranking *)

Section RankingFacts.
Import BrandMatch.

Lemma getMatchLevel_single (s : number) (source : option string) :
  source <> Some "BOTH"%string ->
  getMatchLevel s source =
    if Qle_bool 1 s then High else if Qle_bool 0.5 s then Medium else Low.
Proof.
  intros Hne. unfold getMatchLevel.
  rewrite bool_decide_eq_false_2 by exact Hne. reflexivity.
Qed.

(** C2.  [getMatchLevel] classifies an entry whose source is BOTH as high
    whatever its score; for any other source the tier is high exactly
    when the score is at least 1, medium exactly when it is at least 0.5
    and below 1, and low exactly when it is below 0.5. *)
Theorem getMatchLevel_tiers (s : number) (source : option string) :
  getMatchLevel s (Some "BOTH"%string) = High /\
  (source <> Some "BOTH"%string ->
     (getMatchLevel s source = High <-> 1 <= s) /\
     (getMatchLevel s source = Medium <-> 0.5 <= s /\ s < 1) /\
     (getMatchLevel s source = Low <-> s < 0.5)).
Proof.
  split; [reflexivity|]. intros Hne.
  rewrite (getMatchLevel_single s source Hne).
  destruct (Qle_bool 1 s) eqn:E1; [|destruct (Qle_bool 0.5 s) eqn:E2].
  - apply Qle_bool_iff in E1.
    repeat split; intros; try discriminate; try exact E1; lra.
  - apply Qle_bool_iff in E2.
    assert (~ 1 <= s) by (rewrite <- Qle_bool_iff; congruence).
    repeat split; intros; try discriminate; try contradiction; try lra.
  - assert (~ 1 <= s) by (rewrite <- Qle_bool_iff; congruence).
    assert (~ 0.5 <= s) by (rewrite <- Qle_bool_iff; congruence).
    repeat split; intros; try discriminate; try contradiction; try lra.
Qed.

Lemma getMatchLevel_tiers_witness :
  getMatchLevel 0.7 (Some "TEXT"%string) = Medium <-> 0.5 <= 0.7 /\ 0.7 < 1.
Proof.
  apply (proj2 (getMatchLevel_tiers 0.7 (Some "TEXT"%string))).
  discriminate.
Defined.

End RankingFacts.

(** ** Facts about the insertion-ordered map *)

Section JsMapFacts.
Context {V : Type}.
Implicit Types (k : string) (v : V) (m : list (string * V)).

Lemma map_get_In k v m : map_get k m = Some v -> In (k, v) m.
Proof.
  induction m as [|[k' v'] m IH]; simpl; [discriminate|].
  destruct (String.eqb_spec k' k) as [->|Hne].
  - intros [= ->]. now left.
  - intros H. right. now apply IH.
Qed.

Lemma map_set_Forall (P : string * V -> Prop) k v m :
  P (k, v) -> Forall P m -> Forall P (map_set k v m).
Proof.
  intros Hkv. induction 1 as [|[k' v'] m Hx Hm IH]; simpl.
  - now repeat constructor.
  - destruct (String.eqb k' k); constructor; assumption.
Qed.

Lemma map_set_length k v m :
  (length (map_set k v m) <= S (length m))%nat.
Proof.
  induction m as [|[k' v'] m IH]; simpl; [lia|].
  destruct (String.eqb k' k); simpl; lia.
Qed.

Lemma map_get_set_eq k v m : map_get k (map_set k v m) = Some v.
Proof.
  induction m as [|[k' v'] m IH]; simpl.
  - now rewrite String.eqb_refl.
  - destruct (String.eqb k' k) eqn:E; simpl.
    + now rewrite String.eqb_refl.
    + now rewrite E.
Qed.

Lemma map_get_set_ne k k' v m :
  k <> k' -> map_get k' (map_set k v m) = map_get k' m.
Proof.
  intros Hne. induction m as [|[k0 v0] m IH]; simpl.
  - destruct (String.eqb_spec k k'); [contradiction|reflexivity].
  - destruct (String.eqb_spec k0 k) as [->|Hk]; simpl.
    + destruct (String.eqb_spec k k'); [contradiction|reflexivity].
    + destruct (String.eqb k0 k'); [reflexivity|exact IH].
Qed.

Lemma map_set_keys k v m k0 :
  k0 ∈ map fst (map_set k v m) <-> k0 = k \/ k0 ∈ map fst m.
Proof.
  induction m as [|[k' v'] m IH]; simpl.
  - rewrite elem_of_cons. set_solver.
  - destruct (String.eqb_spec k' k) as [->|Hk]; simpl.
    + rewrite !elem_of_cons. tauto.
    + rewrite !elem_of_cons, IH. tauto.
Qed.

Lemma map_set_keys_NoDup k v m :
  NoDup (map fst m) -> NoDup (map fst (map_set k v m)).
Proof.
  induction m as [|[k' v'] m IH]; simpl; intros Hnd.
  - apply NoDup_singleton.
  - apply NoDup_cons in Hnd as [Hnotin Hnd].
    destruct (String.eqb_spec k' k) as [->|Hk]; simpl.
    + now apply NoDup_cons.
    + apply NoDup_cons. split; [|now apply IH].
      rewrite map_set_keys. intros [->|Hin]; tauto.
Qed.
End JsMapFacts.

(** ** The cross-modal combiner *)

Section CombinerFacts.
Import BrandMatch.
Implicit Types (m : list (string * EmbeddingSearchResult))
  (r e : EmbeddingSearchResult) (l : list EmbeddingSearchResult).

Lemma processText_skip m r : has_video_id r = false -> processText m r = m.
Proof.
  unfold has_video_id, processText.
  now destruct (truthy_string (videoId_of r)).
Qed.

Lemma processVideo_skip m r : has_video_id r = false -> processVideo m r = m.
Proof.
  unfold has_video_id, processVideo.
  now destruct (truthy_string (videoId_of r)).
Qed.

Lemma foldl_processText_filter l m :
  foldl processText m l = foldl processText m (List.filter has_video_id l).
Proof.
  revert m. induction l as [|r l IH]; intros m; simpl; [reflexivity|].
  destruct (has_video_id r) eqn:E; simpl.
  - apply IH.
  - rewrite processText_skip by exact E. apply IH.
Qed.

Lemma foldl_processVideo_filter l m :
  foldl processVideo m l = foldl processVideo m (List.filter has_video_id l).
Proof.
  revert m. induction l as [|r l IH]; intros m; simpl; [reflexivity|].
  destruct (has_video_id r) eqn:E; simpl.
  - apply IH.
  - rewrite processVideo_skip by exact E. apply IH.
Qed.

Lemma processText_keyed m r : keyed m -> keyed (processText m r).
Proof.
  intros Hm. unfold processText.
  destruct (truthy_string (videoId_of r)) as [k|] eqn:E; [|exact Hm].
  apply map_set_Forall; [exact E|exact Hm].
Qed.

Lemma processVideo_keyed m r : keyed m -> keyed (processVideo m r).
Proof.
  intros Hm. unfold processVideo.
  destruct (truthy_string (videoId_of r)) as [k|] eqn:E; [|exact Hm].
  destruct (map_get k m) as [ex|] eqn:G.
  - apply map_set_Forall; [|exact Hm]. simpl.
    apply map_get_In in G.
    unfold keyed in Hm. rewrite Forall_forall in Hm.
    apply list_elem_of_In in G. exact (Hm _ G).
  - apply map_set_Forall; [exact E|exact Hm].
Qed.

Lemma foldl_preserves {B} (P : list (string * EmbeddingSearchResult) -> Prop)
  (f : list (string * EmbeddingSearchResult) -> B ->
       list (string * EmbeddingSearchResult)) (l : list B) m :
  (forall m b, P m -> P (f m b)) -> P m -> P (foldl f m l).
Proof.
  intros Hf. revert m. induction l as [|b l IH]; intros m Hm; simpl; auto.
Qed.

Lemma buildResultMap_keyed l1 l2 : keyed (buildResultMap l1 l2).
Proof.
  unfold buildResultMap.
  apply foldl_preserves; [apply processVideo_keyed|].
  apply foldl_preserves; [apply processText_keyed|constructor].
Qed.

Lemma processText_length m r :
  (length (processText m r) <= length m + (if has_video_id r then 1 else 0))%nat.
Proof.
  unfold processText, has_video_id.
  destruct (truthy_string (videoId_of r)); [|lia].
  pose proof (map_set_length s
    {| metadata := metadata r; score := score r;
       textScore := Some (score r); videoScore := videoScore r;
       originalSource := Some "TEXT"%string |} m). lia.
Qed.

Lemma processVideo_length m r :
  (length (processVideo m r) <= length m + (if has_video_id r then 1 else 0))%nat.
Proof.
  unfold processVideo, has_video_id.
  destruct (truthy_string (videoId_of r)) as [k|]; [|lia].
  destruct (map_get k m) as [ex|];
    match goal with |- context [map_set k ?v m] =>
      pose proof (map_set_length k v m) end; lia.
Qed.

Lemma foldl_length_bound
  (f : list (string * EmbeddingSearchResult) -> EmbeddingSearchResult ->
       list (string * EmbeddingSearchResult)) l m :
  (forall m r, (length (f m r) <= length m + (if has_video_id r then 1 else 0))%nat) ->
  (length (foldl f m l) <= length m + length (List.filter has_video_id l))%nat.
Proof.
  intros Hf. revert m. induction l as [|r l IH]; intros m; simpl; [lia|].
  specialize (IH (f m r)). specialize (Hf m r).
  destruct (has_video_id r); simpl; lia.
Qed.

Lemma combineSearchResults_length l1 l2 :
  (length (combineSearchResults l1 l2)
   <= length (List.filter has_video_id l1)
      + length (List.filter has_video_id l2))%nat.
Proof.
  unfold combineSearchResults, map_values, buildResultMap.
  rewrite (Permutation_length (js_sort_perm _ _)), length_map.
  pose proof (foldl_length_bound processVideo l2
                (foldl processText [] l1) processVideo_length).
  pose proof (foldl_length_bound processText l1 [] processText_length).
  simpl in *. lia.
Qed.

Lemma combineSearchResults_have_ids l1 l2 :
  Forall (fun e => has_video_id e = true) (combineSearchResults l1 l2).
Proof.
  unfold combineSearchResults, map_values.
  eapply Permutation_Forall; [symmetry; apply js_sort_perm|].
  apply Forall_map.
  eapply Forall_impl; [apply buildResultMap_keyed|].
  intros [k e] H. simpl in *. unfold has_video_id. now rewrite H.
Qed.

(** C10.  [combineSearchResults] drops every result, of either list,
    whose metadata has no [tl_video_id]: the combined ranking is the one
    of the two lists without those results, every entry it returns
    carries an id, and its size is at most the number of inputs that
    carry one, so it can be smaller than the number of inputs. *)
Theorem combineSearchResults_drops_results_without_id :
  (forall l1 l2,
     combineSearchResults l1 l2 =
     combineSearchResults (List.filter has_video_id l1)
       (List.filter has_video_id l2)) /\
  (forall l1 l2,
     Forall (fun e => has_video_id e = true) (combineSearchResults l1 l2)) /\
  (forall l1 l2,
     (length (combineSearchResults l1 l2)
      <= length (List.filter has_video_id l1)
         + length (List.filter has_video_id l2))%nat) /\
  (forall s, combineSearchResults [Scenario.hit_without_id s] [] = [] /\
             combineSearchResults [] [Scenario.hit_without_id s] = []) /\
  length (combineSearchResults
            [Scenario.hit_without_id 0.9; Scenario.hit "v1" 0.8]
            [Scenario.hit_without_id 0.7]) = 1%nat.
Proof.
  split; [|split; [|split; [|split]]].
  - intros l1 l2. unfold combineSearchResults, buildResultMap.
    now rewrite <- foldl_processText_filter, <- foldl_processVideo_filter.
  - apply combineSearchResults_have_ids.
  - apply combineSearchResults_length.
  - intros s. split; reflexivity.
  - reflexivity.
Qed.

End CombinerFacts.

(** ** Binary64 arithmetic

    What the ranking needs of IEEE 754: the difference [b - a] is
    positive exactly when [a < b] (a difference of two distinct floats is
    never rounded to zero), [<] is asymmetric, and negatively transitive
    around a number that is not [NaN]; a product by [1.15] is [NaN] only
    when the factor is.  The facts are proved of the specification of the
    operations ([SpecFloat]) and carried over to the primitive floats. *)

Section Binary64Facts.
Local Open Scope Z_scope.

Lemma digits2_pos_size (m : positive) : digits2_pos m = Pos.size m.
Proof. induction m as [m IH|m IH|]; simpl; congruence. Qed.

Lemma digits2_pos_bounds (m : positive) :
  2 ^ (Z.pos (digits2_pos m) - 1) <= Z.pos m < 2 ^ Z.pos (digits2_pos m).
Proof.
  rewrite digits2_pos_size.
  pose proof (Pos.size_gt m) as Hgt. pose proof (Pos.size_le m) as Hle.
  apply Pos2Z.pos_lt_pos in Hgt. apply Pos2Z.pos_le_pos in Hle.
  rewrite Pos2Z.inj_pow in Hgt, Hle.
  replace (Z.pos (Pos.size m)) with (Z.succ (Z.pos (Pos.size m) - 1)) in Hle
    by lia.
  rewrite Z.pow_succ_r in Hle by lia.
  lia.
Qed.

Lemma iter_pos_nat {A : Type} (f : A -> A) (p : positive) (x : A) :
  SpecFloat.iter_pos f p x = Nat.iter (Pos.to_nat p) f x.
Proof.
  revert x. induction p as [p IH|p IH|]; intros x; simpl SpecFloat.iter_pos.
  - rewrite !IH, Pos2Nat.inj_xI.
    replace (S (2 * Pos.to_nat p))%nat
      with (S (Pos.to_nat p + Pos.to_nat p))%nat by lia.
    now rewrite Nat.iter_succ_r, Nat.iter_add.
  - rewrite !IH, Pos2Nat.inj_xO.
    replace (2 * Pos.to_nat p)%nat
      with (Pos.to_nat p + Pos.to_nat p)%nat by lia.
    now rewrite Nat.iter_add.
  - reflexivity.
Qed.

Lemma iter_shr_1_positive (n : nat) :
  forall (m : positive) (r s : bool),
    (n < Pos.to_nat (digits2_pos m))%nat ->
    exists m' r' s',
      Nat.iter n shr_1 (Build_shr_record (Z.pos m) r s)
      = Build_shr_record (Z.pos m') r' s'.
Proof.
  induction n as [|n IH]; intros m r s Hn.
  - now exists m, r, s.
  - rewrite Nat.iter_succ_r.
    destruct m as [m|m|]; simpl digits2_pos in Hn;
      rewrite ?Pos2Nat.inj_succ in Hn; simpl shr_1.
    + apply IH. lia.
    + apply IH. lia.
    + change (Pos.to_nat 1) with 1%nat in Hn. lia.
Qed.

Lemma shr_fexp_positive (m : positive) (e : Z) (l : location) :
  emin <= e ->
  exists m' r' s' e',
    shr_fexp prec emax (Z.pos m) e l = (Build_shr_record (Z.pos m') r' s', e')
    /\ emin <= e'.
Proof.
  intros He. unfold shr_fexp, shr.
  assert (Hrec : exists r s,
             shr_record_of_loc (Z.pos m) l = Build_shr_record (Z.pos m) r s).
  { destruct l as [|[]]; simpl; eauto. }
  destruct Hrec as (r & s & ->).
  destruct (fexp prec emax (Zdigits2 (Z.pos m) + e) - e) as [|p|p] eqn:Hn.
  - now exists m, r, s, e.
  - rewrite iter_pos_nat.
    destruct (iter_shr_1_positive (Pos.to_nat p) m r s) as (m' & r' & s' & ->).
    + apply Pos2Nat.inj_lt. apply Pos2Z.pos_lt_pos.
      unfold fexp, SpecFloat.emin, prec, emax in *. simpl Zdigits2 in Hn. lia.
    + exists m', r', s', (e + Z.pos p). split; [reflexivity|lia].
  - now exists m, r, s, e.
Qed.

Lemma binary_round_aux_sign (sx : bool) (m : positive) (e : Z) (l : location) :
  emin <= e ->
  (exists m' e', binary_round_aux prec emax sx (Z.pos m) e l
                 = S754_finite sx m' e') \/
  binary_round_aux prec emax sx (Z.pos m) e l = S754_infinity sx.
Proof.
  intros He. unfold binary_round_aux.
  destruct (shr_fexp_positive m e l He) as (m1 & r1 & s1 & e1 & -> & He1).
  assert (Hround : exists m2,
             round_nearest_even (shr_m (Build_shr_record (Z.pos m1) r1 s1))
               (loc_of_shr_record (Build_shr_record (Z.pos m1) r1 s1))
             = Z.pos m2).
  { destruct r1, s1; simpl; eauto; destruct m1; simpl; eauto. }
  destruct Hround as (m2 & ->).
  destruct (shr_fexp_positive m2 e1 loc_Exact He1)
    as (m3 & r3 & s3 & e3 & -> & He3).
  simpl. destruct (e3 <=? emax - prec); eauto.
Qed.

Lemma binary_round_sign (sx : bool) (m : positive) (e : Z) :
  emin <= e ->
  (exists m' e', binary_round prec emax sx m e = S754_finite sx m' e') \/
  binary_round prec emax sx m e = S754_infinity sx.
Proof.
  intros He. unfold binary_round.
  destruct (shl_align m e (fexp prec emax (Z.pos (digits2_pos m) + e)))
    as [mz ez] eqn:Hal.
  apply binary_round_aux_sign.
  unfold shl_align in Hal.
  destruct (fexp prec emax (Z.pos (digits2_pos m) + e) - e) eqn:Hd;
    injection Hal as <- <-; trivial.
  unfold fexp. lia.
Qed.

Lemma binary_normalize_positive (M e : Z) :
  emin <= e ->
  SFltb (S754_zero false) (binary_normalize prec emax M e false) = (0 <? M).
Proof.
  intros He. destruct M as [|m|m]; simpl binary_normalize.
  - reflexivity.
  - destruct (binary_round_sign false m e He) as [(m' & e' & ->)| ->];
      reflexivity.
  - destruct (binary_round_sign true m e He) as [(m' & e' & ->)| ->];
      reflexivity.
Qed.

Lemma iter_xO_pow2 (m d : positive) :
  Z.pos (Pos.iter xO m d) = Z.pos m * 2 ^ Z.pos d.
Proof.
  induction d as [|d IH] using Pos.peano_ind.
  - simpl. lia.
  - rewrite Pos.iter_succ, Pos2Z.inj_xO, IH, Pos2Z.inj_succ, Z.pow_succ_r by lia.
    lia.
Qed.

Lemma shl_align_fst (mx : positive) (ex ez : Z) :
  ez <= ex -> Z.pos (fst (shl_align mx ex ez)) = Z.pos mx * 2 ^ (ex - ez).
Proof.
  intros Hle. unfold shl_align.
  destruct (ez - ex) as [|d|d] eqn:Hd; simpl fst.
  - replace (ex - ez) with 0 by lia. lia.
  - lia.
  - rewrite iter_xO_pow2. f_equal. f_equal. lia.
Qed.

Lemma canonical_mantissa_bounds (m : positive) (e : Z) :
  canonical_mantissa prec emax m e = true ->
  emin <= e /\ Z.pos m < 2 ^ 53 /\ (emin < e -> 2 ^ 52 <= Z.pos m).
Proof.
  unfold canonical_mantissa, fexp, SpecFloat.emin, prec, emax.
  intros H. apply Z.eqb_eq in H.
  pose proof (digits2_pos_bounds m) as [Hlo Hhi].
  split; [lia|]. split.
  - eapply Z.lt_le_trans; [exact Hhi|].
    apply Z.pow_le_mono_r; lia.
  - intros He. replace (Z.pos (digits2_pos m)) with 53 in Hlo by lia.
    exact Hlo.
Qed.

Lemma aligned_compare (mx my : positive) (ex ey : Z) :
  canonical_mantissa prec emax mx ex = true ->
  canonical_mantissa prec emax my ey = true ->
  (Z.pos mx * 2 ^ (ex - Z.min ex ey) ?= Z.pos my * 2 ^ (ey - Z.min ex ey))
  = match ex ?= ey with
    | Lt => Lt
    | Gt => Gt
    | Eq => Pos.compare_cont Eq mx my
    end.
Proof.
  intros Hx Hy.
  apply canonical_mantissa_bounds in Hx as (Hex & Hxhi & Hxlo).
  apply canonical_mantissa_bounds in Hy as (Hey & Hyhi & Hylo).
  change (2 ^ 53) with 9007199254740992 in *.
  change (2 ^ 52) with 4503599627370496 in *.
  destruct (Z.compare_spec ex ey) as [->|Hlt|Hgt].
  - rewrite Z.min_id, Z.sub_diag, !Z.mul_1_r. reflexivity.
  - rewrite Z.min_l by lia. rewrite Z.sub_diag, Z.mul_1_r.
    apply Z.compare_lt_iff.
    assert (2 ^ 1 <= 2 ^ (ey - ex)) by (apply Z.pow_le_mono_r; lia).
    change (2 ^ 1) with 2 in *. specialize (Hylo ltac:(lia)). nia.
  - rewrite Z.min_r by lia. rewrite Z.sub_diag, Z.mul_1_r.
    apply Z.compare_gt_iff.
    assert (2 ^ 1 <= 2 ^ (ex - ey)) by (apply Z.pow_le_mono_r; lia).
    change (2 ^ 1) with 2 in *. specialize (Hxlo ltac:(lia)). nia.
Qed.

Lemma SFsub_positive_iff_lt (x y : spec_float) :
  valid_binary x = true -> valid_binary y = true ->
  SFltb (S754_zero false) (SF64sub y x) = SFltb x y.
Proof.
  destruct x as [sx|sx| |sx mx ex], y as [sy|sy| |sy my ey];
    intros Hx Hy; simpl;
    try (now repeat match goal with s : bool |- _ => destruct s end).
  simpl in Hx, Hy. unfold bounded in Hx, Hy.
  apply andb_true_iff in Hx as [Hx _]. apply andb_true_iff in Hy as [Hy _].
  pose proof (canonical_mantissa_bounds _ _ Hx) as (Hex & _).
  pose proof (canonical_mantissa_bounds _ _ Hy) as (Hey & _).
  unfold SF64sub, SFsub.
  rewrite binary_normalize_positive by lia.
  rewrite !shl_align_fst by lia.
  pose proof (aligned_compare mx my ex ey Hx Hy) as Hcmp.
  rewrite (Z.min_comm ey ex).
  set (X := Z.pos mx * 2 ^ (ex - Z.min ex ey)) in *.
  set (Y := Z.pos my * 2 ^ (ey - Z.min ex ey)) in *.
  assert (HX : 0 < X) by (apply Z.mul_pos_pos; [lia|apply Z.pow_pos_nonneg; lia]).
  assert (HY : 0 < Y) by (apply Z.mul_pos_pos; [lia|apply Z.pow_pos_nonneg; lia]).
  unfold SFltb, SFcompare.
  revert Hcmp.
  destruct sx, sy; simpl cond_Zopp;
    destruct (Z.compare_spec X Y), (ex ?= ey); intros Hcmp;
    try discriminate Hcmp; try rewrite <- Hcmp; simpl;
    match goal with |- (0 <? ?M) = _ => destruct (Z.ltb_spec 0 M) end;
    trivial; lia.
Qed.

Lemma SFltb_asymmetric (x y : spec_float) :
  SFltb x y = true -> SFltb y x = false.
Proof.
  unfold SFltb.
  destruct x as [sx|sx| |sx mx ex], y as [sy|sy| |sy my ey]; simpl;
    try (now repeat match goal with s : bool |- _ => destruct s end).
  destruct sx, sy; trivial; try discriminate;
    rewrite (Z.compare_antisym ex ey);
    change (Pos.compare_cont Eq my mx) with (my ?= mx)%positive;
    change (Pos.compare_cont Eq mx my) with (mx ?= my)%positive;
    rewrite (Pos.compare_antisym mx my);
    destruct (ex ?= ey); simpl; trivial; try discriminate;
    destruct (mx ?= my)%positive; simpl; trivial; discriminate.
Qed.

Lemma SFleb_of_not_SFltb (x y : spec_float) :
  x <> S754_nan -> y <> S754_nan ->
  SFltb x y = false -> SFleb y x = true.
Proof.
  unfold SFltb, SFleb.
  destruct x as [sx|sx| |sx mx ex], y as [sy|sy| |sy my ey]; simpl;
    intros Hx Hy; try contradiction;
    try (now repeat match goal with s : bool |- _ => destruct s end).
  destruct sx, sy; trivial; try discriminate;
    rewrite (Z.compare_antisym ex ey);
    change (Pos.compare_cont Eq my mx) with (my ?= mx)%positive;
    change (Pos.compare_cont Eq mx my) with (mx ?= my)%positive;
    rewrite (Pos.compare_antisym mx my);
    destruct (ex ?= ey); simpl; trivial; try discriminate;
    destruct (mx ?= my)%positive; simpl; trivial; discriminate.
Qed.

Lemma SFcompare_refl (x : spec_float) :
  x <> S754_nan -> SFcompare x x = Some Eq.
Proof.
  destruct x as [s|s| |s m e]; simpl; intros Hx;
    [reflexivity|now destruct s|contradiction|].
  rewrite Z.compare_refl.
  change (Pos.compare_cont Eq m m) with (m ?= m)%positive.
  rewrite Pos.compare_refl. now destruct s.
Qed.

Lemma SFltb_finite_iff (s1 : bool) (m1 : positive) (e1 : Z)
  (s2 : bool) (m2 : positive) (e2 : Z) :
  SFltb (S754_finite s1 m1 e1) (S754_finite s2 m2 e2) = true <->
  match s1, s2 with
  | true, false => True
  | false, true => False
  | false, false => e1 < e2 \/ (e1 = e2 /\ Z.pos m1 < Z.pos m2)
  | true, true => e2 < e1 \/ (e1 = e2 /\ Z.pos m2 < Z.pos m1)
  end.
Proof.
  unfold SFltb, SFcompare.
  change (Pos.compare_cont Eq m1 m2) with (m1 ?= m2)%positive.
  destruct s1, s2;
    destruct (Z.compare_spec e1 e2) as [He|He|He],
      (Pos.compare_spec m1 m2) as [Hm|Hm|Hm]; simpl;
    split; intros Hlt; try discriminate; trivial; try lia.
Qed.

Lemma SFltb_negatively_transitive (x y z : spec_float) :
  y <> S754_nan -> SFltb x z = true ->
  SFltb x y = true \/ SFltb y z = true.
Proof.
  destruct x as [sx|sx| |sx mx ex], y as [sy|sy| |sy my ey],
    z as [sz|sz| |sz mz ez]; intros Hy; try contradiction;
    try (rewrite !SFltb_finite_iff; destruct sx, sy, sz; lia);
    unfold SFltb; simpl;
    repeat match goal with s : bool |- _ => destruct s end;
    simpl; intros H; auto; discriminate.
Qed.

Lemma iter_shr_1_nonneg (n : nat) (mrs : shr_record) :
  0 <= shr_m mrs -> 0 <= shr_m (Nat.iter n shr_1 mrs).
Proof.
  intros H.
  apply (Nat.iter_invariant n _ shr_1 (fun r => 0 <= shr_m r)); [|exact H].
  intros [m r s]. simpl. destruct m as [|[p|p|]|p]; simpl; lia.
Qed.

Lemma shr_fexp_nonneg (m e : Z) (l : location) :
  0 <= m -> 0 <= shr_m (fst (shr_fexp prec emax m e l)).
Proof.
  intros Hm. unfold shr_fexp, shr.
  assert (Hrec : 0 <= shr_m (shr_record_of_loc m l))
    by (destruct l as [|[]]; exact Hm).
  destruct (fexp prec emax (Zdigits2 m + e) - e); simpl fst; trivial.
  rewrite iter_pos_nat. now apply iter_shr_1_nonneg.
Qed.

Lemma binary_round_aux_not_nan (sx : bool) (m : positive) (e : Z)
  (l : location) :
  binary_round_aux prec emax sx (Z.pos m) e l <> S754_nan.
Proof.
  unfold binary_round_aux.
  pose proof (shr_fexp_nonneg (Z.pos m) e l ltac:(lia)) as H1.
  destruct (shr_fexp prec emax (Z.pos m) e l) as [mrs1 e1]. simpl fst in H1.
  assert (H2 : 0 <= round_nearest_even (shr_m mrs1) (loc_of_shr_record mrs1)).
  { destruct mrs1 as [m1 [] []]; simpl in *; trivial; try lia.
    destruct (Z.even m1); lia. }
  pose proof (shr_fexp_nonneg _ e1 loc_Exact H2) as H3.
  destruct (shr_fexp prec emax _ e1 loc_Exact) as [mrs2 e2]. simpl fst in H3.
  destruct (shr_m mrs2); [discriminate| |lia].
  now destruct (e2 <=? emax - prec).
Qed.

End Binary64Facts.

Lemma sub_positive_iff_lt (a b : float) :
  (0 <? b - a)%float = (a <? b)%float.
Proof.
  rewrite !FloatAxioms.ltb_spec, FloatAxioms.sub_spec.
  change (Prim2SF 0) with (S754_zero false).
  apply SFsub_positive_iff_lt; apply Prim2SF_valid.
Qed.

Lemma ltb_asymmetric (a b : float) :
  (a <? b)%float = true -> (b <? a)%float = false.
Proof. rewrite !FloatAxioms.ltb_spec. apply SFltb_asymmetric. Qed.

Lemma Sorted_weaken {A : Type} (R S : A -> A -> Prop) (l : list A) :
  (forall x y, R x y -> S x y) -> Sorted R l -> Sorted S l.
Proof.
  intros HRS. induction 1 as [|x l Hs IH Hhd]; constructor; [exact IH|].
  destruct Hhd; constructor. now apply HRS.
Qed.


Lemma is_nan_false (x : float) : is_nan x = false <-> Prim2SF x <> S754_nan.
Proof.
  unfold is_nan. rewrite FloatAxioms.eqb_spec, negb_false_iff. unfold SFeqb. split.
  - intros H Hnan. rewrite Hnan in H. discriminate.
  - intros H. now rewrite SFcompare_refl.
Qed.

Lemma ltb_negatively_transitive (a b c : float) :
  is_nan b = false -> (a <? c)%float = true ->
  (a <? b)%float = true \/ (b <? c)%float = true.
Proof.
  intros Hb Hac. apply is_nan_false in Hb. rewrite !FloatAxioms.ltb_spec in *.
  now apply SFltb_negatively_transitive.
Qed.

Lemma leb_of_not_ltb (a b : float) :
  is_nan a = false -> is_nan b = false ->
  (a <? b)%float = false -> (b <=? a)%float = true.
Proof.
  intros Ha Hb. apply is_nan_false in Ha. apply is_nan_false in Hb.
  rewrite FloatAxioms.ltb_spec, FloatAxioms.leb_spec.
  now apply SFleb_of_not_SFltb.
Qed.

Lemma mul_boost_number (a : float) :
  is_nan a = false -> is_nan (a * 1.15)%float = false.
Proof.
  intros Ha. apply is_nan_false in Ha. apply is_nan_false.
  rewrite FloatAxioms.mul_spec.
  change (Prim2SF 1.15) with (S754_finite false 5179139571476070 (-52)).
  destruct (Prim2SF a) as [s|s| |s m e]; simpl; try discriminate.
  - contradiction.
  - apply binary_round_aux_not_nan.
Qed.

(** ** The order of the combined ranking in binary64 *)

Section JsSort64Facts.
Context {A : Type}.
Variable compareFn : A -> A -> float.

#[local] Abbreviation stays x y := ((0 <? compareFn x y)%float = false).

Lemma sort_insert64_perm (x : A) (l : list A) :
  Permutation (Binary64.sort_insert compareFn x l) (x :: l).
Proof.
  induction l as [|y l IH]; simpl; [reflexivity|].
  destruct (0 <? compareFn x y)%float; [|reflexivity].
  rewrite IH. apply perm_swap.
Qed.

Lemma js_sort64_perm (l : list A) :
  Permutation (Binary64.js_sort compareFn l) l.
Proof.
  induction l as [|x l IH]; simpl; [reflexivity|].
  rewrite sort_insert64_perm. now constructor.
Qed.

Hypothesis positive_asymmetric :
  forall x y, (0 <? compareFn x y)%float = true ->
              (0 <? compareFn y x)%float = false.

Lemma sort_insert64_HdRel (z x : A) (l : list A) :
  stays z x -> HdRel (fun a b => stays a b) z l ->
  HdRel (fun a b => stays a b) z (Binary64.sort_insert compareFn x l).
Proof.
  intros Hzx Hzl. destruct l as [|y l]; simpl; [now constructor|].
  destruct (0 <? compareFn x y)%float; constructor; trivial.
  now inversion Hzl.
Qed.

Lemma sort_insert64_sorted (x : A) (l : list A) :
  Sorted (fun a b => stays a b) l ->
  Sorted (fun a b => stays a b) (Binary64.sort_insert compareFn x l).
Proof.
  induction 1 as [|y l Hs IH Hhd]; simpl.
  - repeat constructor.
  - destruct (0 <? compareFn x y)%float eqn:E.
    + constructor; [exact IH|].
      apply sort_insert64_HdRel; [now apply positive_asymmetric|exact Hhd].
    + repeat constructor; assumption.
Qed.

Lemma js_sort64_sorted (l : list A) :
  Sorted (fun a b => stays a b) (Binary64.js_sort compareFn l).
Proof.
  induction l as [|x l IH]; simpl; [constructor|].
  now apply sort_insert64_sorted.
Qed.
End JsSort64Facts.

Lemma Sorted_StronglySorted_on {A : Type} (P : A -> Prop)
  (R : A -> A -> Prop) (l : list A) :
  (forall x y z, P y -> R x y -> R y z -> R x z) ->
  Forall P l -> Sorted R l -> StronglySorted R l.
Proof.
  intros Htrans HP. induction 1 as [|x l Hs IH Hhd]; [constructor|].
  apply Forall_cons in HP as [_ HP]. specialize (IH HP).
  constructor; [exact IH|].
  destruct Hhd as [|y l Hxy]; [constructor|].
  apply StronglySorted_inv in IH as [_ Hall].
  apply Forall_cons in HP as [Hy _].
  constructor; [exact Hxy|].
  eapply Forall_impl; [exact Hall|]. intros z Hyz. now apply Htrans with y.
Qed.

Lemma StronglySorted_weaken_on {A : Type} (P : A -> Prop)
  (R S : A -> A -> Prop) (l : list A) :
  (forall x y, P x -> P y -> R x y -> S x y) ->
  Forall P l -> StronglySorted R l -> StronglySorted S l.
Proof.
  intros HRS HP. induction 1 as [|x l Hs IH Hall]; [constructor|].
  apply Forall_cons in HP as [Hx HP].
  constructor; [now apply IH|].
  rewrite Forall_forall in *. intros y Hy. apply HRS; auto.
Qed.

Section RankingBinary64.
Import BrandMatch Binary64.

(** The comparator does not put [b] before [a]: the tier of [a] is
    higher, or equal with a score that the score of [b] does not
    exceed. *)
#[local] Abbreviation not_outranked a b :=
  ((tier_priority b <? tier_priority a)%float = true \/
   ((tier_priority a =? tier_priority b)%float = true /\
    (score a <? score b)%float = false)).

Lemma priority_ltb (x y : MatchLevel) :
  (Binary64.getMatchLevelPriority x <? Binary64.getMatchLevelPriority y)%float
  = (BrandMatch.getMatchLevelPriority x <? BrandMatch.getMatchLevelPriority y)%Z.
Proof. destruct x, y; reflexivity. Qed.

Lemma priority_eqb (x y : MatchLevel) :
  (Binary64.getMatchLevelPriority x =? Binary64.getMatchLevelPriority y)%float
  = (BrandMatch.getMatchLevelPriority x =? BrandMatch.getMatchLevelPriority y)%Z.
Proof. destruct x, y; reflexivity. Qed.

Lemma compareResults_positive (a b : EmbeddingSearchResult) :
  (0 <? compareResults a b)%float
  = if negb (tier_priority a =? tier_priority b)%float
    then (tier_priority a <? tier_priority b)%float
    else (score a <? score b)%float.
Proof.
  unfold compareResults, tier_priority.
  destruct (negb _); apply sub_positive_iff_lt.
Qed.

Lemma compareResults_asymmetric (a b : EmbeddingSearchResult) :
  (0 <? compareResults a b)%float = true ->
  (0 <? compareResults b a)%float = false.
Proof.
  rewrite !compareResults_positive. unfold tier_priority.
  rewrite !priority_eqb, !priority_ltb.
  generalize (BrandMatch.getMatchLevelPriority
                (getMatchLevel (score a) (originalSource a)))
             (BrandMatch.getMatchLevelPriority
                (getMatchLevel (score b) (originalSource b))).
  intros pa pb.
  destruct (Z.eqb_spec pa pb) as [->|Hne]; simpl.
  - rewrite Z.eqb_refl. simpl. apply ltb_asymmetric.
  - destruct (Z.eqb_spec pb pa); [congruence|]. simpl. lia.
Qed.

Lemma compareResults_not_outranked (a b : EmbeddingSearchResult) :
  (0 <? compareResults a b)%float = false -> not_outranked a b.
Proof.
  rewrite compareResults_positive. unfold tier_priority.
  rewrite !priority_eqb, !priority_ltb.
  generalize (BrandMatch.getMatchLevelPriority
                (getMatchLevel (score a) (originalSource a)))
             (BrandMatch.getMatchLevelPriority
                (getMatchLevel (score b) (originalSource b))).
  intros pa pb.
  destruct (Z.eqb_spec pa pb) as [->|Hne]; simpl.
  - intros H. now right.
  - intros H. left. lia.
Qed.

Lemma not_outranked_transitive (a b c : EmbeddingSearchResult) :
  is_nan (score b) = false ->
  not_outranked a b -> not_outranked b c -> not_outranked a c.
Proof.
  unfold tier_priority.
  rewrite !priority_eqb, !priority_ltb.
  generalize (BrandMatch.getMatchLevelPriority
                (getMatchLevel (score a) (originalSource a)))
             (BrandMatch.getMatchLevelPriority
                (getMatchLevel (score b) (originalSource b)))
             (BrandMatch.getMatchLevelPriority
                (getMatchLevel (score c) (originalSource c))).
  intros pa pb pc Hb [H1|[H1 S1]] [H2|[H2 S2]]; try (left; lia).
  right. split; [lia|].
  destruct (score a <? score c)%float eqn:E; [|reflexivity].
  destruct (ltb_negatively_transitive _ _ _ Hb E); congruence.
Qed.

Lemma not_outranked_ranked (a b : EmbeddingSearchResult) :
  is_nan (score a) = false -> is_nan (score b) = false ->
  not_outranked a b -> ranked_before a b.
Proof.
  intros Ha Hb [H|[H Hs]]; [now left|right].
  split; [exact H|]. now apply leb_of_not_ltb.
Qed.

Lemma or_zero_number (x : option number) : is_nan (or_zero x) = false.
Proof.
  destruct x as [v|]; simpl; [|reflexivity].
  unfold truthy_number.
  destruct (v =? 0)%float; simpl; [reflexivity|].
  now destruct (is_nan v) eqn:E.
Qed.

Lemma math_max_number (a b : number) :
  is_nan a = false -> is_nan b = false -> is_nan (math_max a b) = false.
Proof.
  intros Ha Hb. unfold math_max. rewrite Ha, Hb. simpl.
  destruct (a <? b)%float; [exact Hb|].
  destruct (b <? a)%float; [exact Ha|].
  now destruct (get_sign a).
Qed.

#[local] Abbreviation numbers m :=
  (Forall (fun kv : string * EmbeddingSearchResult =>
             is_nan (score (snd kv)) = false) m).

Lemma processText_numbers m r :
  numbers m -> is_nan (score r) = false -> numbers (processText m r).
Proof.
  intros Hm Hr. unfold processText.
  destruct (truthy_string (videoId_of r)); [|exact Hm].
  now apply map_set_Forall.
Qed.

Lemma processVideo_numbers m r :
  numbers m -> is_nan (score r) = false -> numbers (processVideo m r).
Proof.
  intros Hm Hr. unfold processVideo.
  destruct (truthy_string (videoId_of r)); [|exact Hm].
  destruct (map_get s m); apply map_set_Forall; trivial. simpl.
  apply mul_boost_number, math_max_number; [apply or_zero_number|exact Hr].
Qed.

Lemma foldl_processText_numbers l m :
  scores_are_numbers l -> numbers m -> numbers (foldl processText m l).
Proof.
  intros Hl. revert m.
  induction Hl as [|r l Hr Hl IH]; intros m Hm; simpl; [exact Hm|].
  apply IH. now apply processText_numbers.
Qed.

Lemma foldl_processVideo_numbers l m :
  scores_are_numbers l -> numbers m -> numbers (foldl processVideo m l).
Proof.
  intros Hl. revert m.
  induction Hl as [|r l Hr Hl IH]; intros m Hm; simpl; [exact Hm|].
  apply IH. now apply processVideo_numbers.
Qed.

Lemma buildResultMap_numbers l1 l2 :
  scores_are_numbers l1 -> scores_are_numbers l2 ->
  numbers (buildResultMap l1 l2).
Proof.
  intros H1 H2. unfold buildResultMap.
  apply foldl_processVideo_numbers; [exact H2|].
  apply foldl_processText_numbers; [exact H1|constructor].
Qed.

Lemma combineSearchResults_numbers l1 l2 :
  scores_are_numbers l1 -> scores_are_numbers l2 ->
  scores_are_numbers (combineSearchResults l1 l2).
Proof.
  intros H1 H2. unfold combineSearchResults, scores_are_numbers.
  eapply Permutation_Forall; [symmetry; apply js_sort64_perm|].
  unfold map_values. apply Forall_map.
  exact (buildResultMap_numbers l1 l2 H1 H2).
Qed.

(** C6, as amended.  In binary64, [combineSearchResults] returns its
    entries ordered by tier priority (high 3, medium 2, low 1), highest
    first, and within one tier by combined score, highest first: when no
    score of the two inputs is [NaN], every entry ranks before all the
    entries that follow it, that is, each of them has a lower tier, or
    the same tier and a score that is at most its own.  For text results
    [v1: 0.8] and video results [v1: 0.6; v2: 1.2] it returns v2 (VIDEO,
    1.2, high) and then v1 (BOTH, high) with the combined score
    [0.8 * 1.15], which binary64 rounds to 0.9199999999999999, below
    0.92. *)
Theorem combineSearchResults_order_binary64 :
  (Binary64.getMatchLevelPriority High = 3 /\
   Binary64.getMatchLevelPriority Medium = 2 /\
   Binary64.getMatchLevelPriority Low = 1)%float /\
  (forall l1 l2,
     Binary64.scores_are_numbers l1 -> Binary64.scores_are_numbers l2 ->
     StronglySorted Binary64.ranked_before
       (Binary64.combineSearchResults l1 l2)) /\
  map Binary64.summary
    (Binary64.combineSearchResults [Binary64.hit "v1" 0.8%float]
       [Binary64.hit "v1" 0.6%float; Binary64.hit "v2" 1.2%float])
  = [(Some "v2"%string, Some "VIDEO"%string, 1.2%float, High);
     (Some "v1"%string, Some "BOTH"%string, (0.8 * 1.15)%float, High)] /\
  (0.8 * 1.15 = 0.9199999999999999)%float /\
  (0.8 * 1.15 <? 0.92)%float = true.
Proof.
  split; [repeat split|]. split; [|repeat split].
  intros l1 l2 H1 H2.
  pose proof (combineSearchResults_numbers l1 l2 H1 H2) as Hnum.
  apply StronglySorted_weaken_on
    with (P := fun e => is_nan (score e) = false)
         (R := fun a b => not_outranked a b);
    [apply not_outranked_ranked|exact Hnum|].
  apply Sorted_StronglySorted_on
    with (P := fun e => is_nan (score e) = false).
  - intros x y z. apply not_outranked_transitive.
  - exact Hnum.
  - unfold combineSearchResults.
    eapply Sorted_weaken; [|apply js_sort64_sorted].
    + apply compareResults_not_outranked.
    + apply compareResults_asymmetric.
Qed.

Lemma combineSearchResults_order_binary64_witness :
  StronglySorted Binary64.ranked_before
    (Binary64.combineSearchResults [Binary64.hit "v1" 0.8%float]
       [Binary64.hit "v1" 0.6%float; Binary64.hit "v2" 1.2%float]).
Proof.
  apply (proj1 (proj2 combineSearchResults_order_binary64));
    repeat constructor.
Defined.

(** C6, as stated, fails.  For text results [v1: 0.8] and video results
    [v1: 0.6; v2: 1.2] the combined score of v1 is not 0.92: the product
    [0.8 * 1.15] is rounded to the float just below the float 0.92. *)
Lemma combined_score_of_scenario_is_not_0_92 :
  map Binary64.summary
    (Binary64.combineSearchResults [Binary64.hit "v1" 0.8%float]
       [Binary64.hit "v1" 0.6%float; Binary64.hit "v2" 1.2%float])
  <> [(Some "v2"%string, Some "VIDEO"%string, 1.2%float, High);
      (Some "v1"%string, Some "BOTH"%string, 0.92%float, High)].
Proof.
  intros H.
  apply (f_equal (fun l => match l with
                           | [_; (_, _, s, _)] => (s =? 0.92)%float
                           | _ => true
                           end)) in H.
  vm_compute in H. discriminate.
Qed.

End RankingBinary64.

(** ** Which entries are boosted *)

Section BoostFacts.
Import BrandMatch.
Implicit Types (m : list (string * EmbeddingSearchResult))
  (r e : EmbeddingSearchResult) (l : list EmbeddingSearchResult)
  (k : string).

Lemma map_get_processText k m r :
  map_get k (processText m r) =
  if id_is k r then Some (asText r) else map_get k m.
Proof.
  unfold processText, id_is.
  destruct (truthy_string (videoId_of r)) as [k'|].
  - destruct (decide (k' = k)) as [->|Hne].
    + rewrite bool_decide_eq_true_2 by reflexivity. apply map_get_set_eq.
    + rewrite bool_decide_eq_false_2 by congruence.
      now apply map_get_set_ne.
  - now rewrite bool_decide_eq_false_2 by discriminate.
Qed.

Lemma map_get_processVideo k m r :
  map_get k (processVideo m r) =
  if id_is k r
  then Some (match map_get k m with
             | Some ex => asBoth ex r
             | None => asVideo r
             end)
  else map_get k m.
Proof.
  unfold processVideo, id_is.
  destruct (truthy_string (videoId_of r)) as [k'|].
  - destruct (decide (k' = k)) as [->|Hne].
    + rewrite bool_decide_eq_true_2 by reflexivity.
      destruct (map_get k m); apply map_get_set_eq.
    + rewrite bool_decide_eq_false_2 by congruence.
      destruct (map_get k' m); now apply map_get_set_ne.
  - now rewrite bool_decide_eq_false_2 by discriminate.
Qed.

Lemma map_get_text_phase k l m :
  map_get k (foldl processText m l) =
  match last_with_id k l with
  | Some r => Some (asText r)
  | None => map_get k m
  end.
Proof.
  revert m. induction l as [|r l IH]; intros m; simpl; [reflexivity|].
  rewrite IH. destruct (last_with_id k l); [reflexivity|].
  rewrite map_get_processText. now destruct (id_is k r).
Qed.

Lemma first_with_id_ids k l r :
  first_with_id k l = Some r -> k ∈ video_ids l.
Proof.
  unfold first_with_id, video_ids.
  induction l as [|x l IH]; simpl; [discriminate|].
  unfold id_is at 1.
  destruct (truthy_string (videoId_of x)) as [k'|] eqn:E.
  - destruct (decide (k' = k)) as [->|Hne].
    + intros _. apply elem_of_cons. now left.
    + rewrite bool_decide_eq_false_2 by congruence.
      intros H. apply elem_of_cons. right. now apply IH.
  - rewrite bool_decide_eq_false_2 by discriminate.
    intros H. now apply IH.
Qed.

Lemma map_get_video_phase k l m :
  NoDup (video_ids l) ->
  map_get k (foldl processVideo m l) =
  match first_with_id k l with
  | Some r => Some (match map_get k m with
                    | Some ex => asBoth ex r
                    | None => asVideo r
                    end)
  | None => map_get k m
  end.
Proof.
  revert m. induction l as [|r l IH]; intros m Hnd; simpl; [reflexivity|].
  assert (Hl : NoDup (video_ids l)).
  { unfold video_ids in *. simpl in Hnd.
    destruct (truthy_string (videoId_of r)); [|exact Hnd].
    now apply NoDup_cons in Hnd as [_ Hnd]. }
  rewrite (IH _ Hl), map_get_processVideo.
  destruct (id_is k r) eqn:E; [|reflexivity].
  destruct (first_with_id k l) as [r'|] eqn:F; [|reflexivity].
  exfalso. apply first_with_id_ids in F.
  unfold id_is in E. apply bool_decide_eq_true_1 in E.
  unfold video_ids in Hnd. simpl in Hnd. rewrite E in Hnd.
  apply NoDup_cons in Hnd as [Hnotin _]. now apply Hnotin.
Qed.

Lemma map_get_of_In k e m :
  NoDup (map fst m) -> In (k, e) m -> map_get k m = Some e.
Proof.
  induction m as [|[k' e'] m IH]; simpl; [tauto|].
  intros Hnd. apply NoDup_cons in Hnd as [Hnotin Hnd].
  intros [[= -> ->]|Hin].
  - now rewrite String.eqb_refl.
  - destruct (String.eqb_spec k' k) as [->|Hne]; [|now apply IH].
    exfalso. apply Hnotin. apply list_elem_of_In.
    change k with (fst (k, e)). now apply in_map.
Qed.

Lemma processText_keys_NoDup m r :
  NoDup (map fst m) -> NoDup (map fst (processText m r)).
Proof.
  intros H. unfold processText.
  destruct (truthy_string (videoId_of r)); [|exact H].
  now apply map_set_keys_NoDup.
Qed.

Lemma processVideo_keys_NoDup m r :
  NoDup (map fst m) -> NoDup (map fst (processVideo m r)).
Proof.
  intros H. unfold processVideo.
  destruct (truthy_string (videoId_of r)) as [k|]; [|exact H].
  destruct (map_get k m); now apply map_set_keys_NoDup.
Qed.

Lemma buildResultMap_keys_NoDup l1 l2 :
  NoDup (map fst (buildResultMap l1 l2)).
Proof.
  unfold buildResultMap.
  apply (foldl_preserves (fun m => NoDup (map fst m)));
    [apply processVideo_keys_NoDup|].
  apply (foldl_preserves (fun m => NoDup (map fst m)));
    [apply processText_keys_NoDup|constructor].
Qed.

(** An entry of the combined ranking sits in the map under its id. *)
Lemma combineSearchResults_entry l1 l2 e :
  In e (combineSearchResults l1 l2) ->
  exists k, truthy_string (videoId_of e) = Some k /\
            map_get k (buildResultMap l1 l2) = Some e.
Proof.
  unfold combineSearchResults, map_values. intros Hin.
  apply (Permutation_in _ (js_sort_perm _ _)) in Hin.
  apply in_map_iff in Hin as [[k e'] [Heq Hin]]. simpl in Heq. subst e'.
  exists k. split.
  - pose proof (buildResultMap_keyed l1 l2) as Hk.
    unfold keyed in Hk. rewrite Forall_forall in Hk.
    apply list_elem_of_In in Hin. exact (Hk _ Hin).
  - apply map_get_of_In; [apply buildResultMap_keys_NoDup|exact Hin].
Qed.

(** When no id occurs twice among the video results, an entry is boosted
    exactly when its id occurs in both lists; otherwise it keeps the
    score of the one result it comes from. *)
Lemma combineSearchResults_unique_video_ids l1 l2 e k :
  NoDup (video_ids l2) ->
  In e (combineSearchResults l1 l2) ->
  truthy_string (videoId_of e) = Some k ->
  match last_with_id k l1, first_with_id k l2 with
  | Some t, Some v =>
      originalSource e = Some "BOTH"%string /\
      score e = Qmax (or_zero (Some (score t))) (score v) * 1.15
  | Some t, None =>
      originalSource e = Some "TEXT"%string /\ score e = score t
  | None, Some v =>
      originalSource e = Some "VIDEO"%string /\ score e = score v
  | None, None => False
  end.
Proof.
  intros Hnd Hin Hid.
  apply combineSearchResults_entry in Hin as [k' [Hid' Hget]].
  assert (k' = k) by congruence. subst k'.
  unfold buildResultMap in Hget.
  rewrite (map_get_video_phase _ _ _ Hnd), map_get_text_phase in Hget.
  simpl in Hget.
  destruct (last_with_id k l1) as [t|], (first_with_id k l2) as [v|];
    injection Hget as <- || discriminate Hget; simpl; auto.
Qed.

Lemma score_law_map_set k e m :
  score_law e -> Forall (fun kv => score_law (snd kv)) m ->
  Forall (fun kv => score_law (snd kv)) (map_set k e m).
Proof. intros He Hm. now apply map_set_Forall. Qed.

(** Whatever the two lists, every entry obeys [score_law]: an entry
    marked BOTH has the boosted score of its two recorded scores, an entry
    marked TEXT or VIDEO has its single recorded score. *)
Lemma combineSearchResults_score_law l1 l2 :
  Forall score_law (combineSearchResults l1 l2).
Proof.
  unfold combineSearchResults, map_values.
  eapply Permutation_Forall; [symmetry; apply js_sort_perm|].
  apply Forall_map. unfold buildResultMap.
  apply (foldl_preserves (fun m => Forall (fun kv => score_law (snd kv)) m)).
  - intros m r Hm. unfold processVideo.
    destruct (truthy_string (videoId_of r)) as [k|]; [|exact Hm].
    destruct (map_get k m) as [ex|]; apply score_law_map_set; try exact Hm.
    + right. right. simpl. split; [reflexivity|]. eauto.
    + right. left. now simpl.
  - apply (foldl_preserves (fun m => Forall (fun kv => score_law (snd kv)) m));
      [|constructor].
    intros m r Hm. unfold processText.
    destruct (truthy_string (videoId_of r)) as [k|]; [|exact Hm].
    apply score_law_map_set; [|exact Hm]. left. now simpl.
Qed.

(** C1.  For an empty text list and a video list that names v1 twice
    (scores 0.6 and 0.7), [combineSearchResults] returns v1 marked BOTH
    with score 0.7 * 1.15 = 0.805: an entity that appears in only one of
    the two lists is boosted. *)
Theorem combineSearchResults_repeated_video_id_is_boosted :
  map Scenario.summary
    (combineSearchResults []
       [Scenario.hit "v1" 0.6; Scenario.hit "v1" 0.7])
  = [(Some "v1"%string, Some "BOTH"%string, Qred 0.805, High)] /\
  map textScore
    (combineSearchResults []
       [Scenario.hit "v1" 0.6; Scenario.hit "v1" 0.7])
  = [Some 0].
Proof. split; vm_compute; reflexivity. Qed.

End BoostFacts.

(** ** The readiness gate of [handleFindMatches] *)

Section ReadinessGate.
Import BrandMatch.

Ltac run_handler :=
  cbv [mbind mret handler_bind handler_ret getState setState early_return
       await await_all2 invoke settle try_catch_finally];
  cbn [fst snd app negb].

(** C7.  When [checkAndEnsureEmbeddings] delivers [success = false],
    [handleFindMatches] makes no call to either similarity search nor to
    the combiner (the readiness check is its only call) and leaves the
    match list empty; whenever a search or the combiner is called, the
    readiness check has delivered [success = true]. *)
Theorem handleFindMatches_readiness_gate
  (env : Collaborators) (st : PageState) :
  (forall videoId r,
     truthy_string (selectedVideoId st) = Some videoId ->
     checkAndEnsureEmbeddings env videoId = Resolved r ->
     success r = false ->
     similarResults (fst (run_handleFindMatches env st)) = [] /\
     snd (run_handleFindMatches env st)
     = [CallCheckAndEnsureEmbeddings videoId]) /\
  (existsb is_search_call (snd (run_handleFindMatches env st)) = true ->
   exists videoId r,
     truthy_string (selectedVideoId st) = Some videoId /\
     checkAndEnsureEmbeddings env videoId = Resolved r /\
     success r = true).
Proof.
  unfold run_handleFindMatches, handleFindMatches. split.
  - intros videoId r Hsel Hcheck Hfail.
    run_handler. rewrite Hsel. run_handler. rewrite Hcheck. run_handler.
    rewrite Hfail. run_handler. split; reflexivity.
  - run_handler.
    destruct (truthy_string (selectedVideoId st)) as [videoId|] eqn:Hsel;
      run_handler; [|discriminate].
    destruct (checkAndEnsureEmbeddings env videoId) as [msg|r] eqn:Hcheck;
      run_handler; [discriminate|].
    destruct (success r) eqn:Hok; run_handler; [|discriminate].
    intros _. exists videoId, r. auto.
Qed.

Lemma handleFindMatches_readiness_gate_witness :
  (similarResults
     (fst (run_handleFindMatches env_not_ready
             (page0 (Some "src"%string) [Scenario.hit "old" 2]))) = [] /\
   snd (run_handleFindMatches env_not_ready
          (page0 (Some "src"%string) [Scenario.hit "old" 2]))
   = [CallCheckAndEnsureEmbeddings "src"]) /\
  (exists videoId r,
     truthy_string (selectedVideoId (page0 (Some "src"%string) []))
     = Some videoId /\
     checkAndEnsureEmbeddings env_ready videoId = Resolved r /\
     success r = true).
Proof.
  split.
  - apply (proj1 (handleFindMatches_readiness_gate env_not_ready
                    (page0 (Some "src"%string) [Scenario.hit "old" 2]))
             "src"%string (mkReadiness 3 5 false));
      reflexivity.
  - apply (proj2 (handleFindMatches_readiness_gate env_ready
                    (page0 (Some "src"%string) []))).
    reflexivity.
Defined.

End ReadinessGate.

(** ** Merging and deduplication *)

Section MergeFacts.
Import SemanticSearch.
Implicit Types (S B l : list SearchResult) (x y : SearchResult).

Lemma key_eqb_refl (k : Key) : key_eqb k k = true.
Proof.
  destruct k as [[v s] e]. unfold key_eqb.
  rewrite String.eqb_refl. simpl.
  rewrite !(proj2 (Qeq_bool_iff _ _)); reflexivity.
Qed.

Lemma key_eqb_sym (k1 k2 : Key) : key_eqb k1 k2 = key_eqb k2 k1.
Proof.
  destruct k1 as [[v1 s1] e1], k2 as [[v2 s2] e2]. unfold key_eqb.
  rewrite (String.eqb_sym v1 v2). f_equal; [f_equal|].
  - apply eq_true_iff_eq. rewrite !Qeq_bool_iff. split; intros H; now symmetry.
  - apply eq_true_iff_eq. rewrite !Qeq_bool_iff. split; intros H; now symmetry.
Qed.

Lemma key_eqb_trans (k1 k2 k3 : Key) :
  key_eqb k1 k2 = true -> key_eqb k2 k3 = true -> key_eqb k1 k3 = true.
Proof.
  destruct k1 as [[v1 s1] e1], k2 as [[v2 s2] e2], k3 as [[v3 s3] e3].
  unfold key_eqb. rewrite !andb_true_iff, !Qeq_bool_iff, !String.eqb_eq.
  intros [[-> Hs] He] [[-> Hs'] He'].
  repeat split; [now rewrite Hs|now rewrite He].
Qed.

Lemma set_has_app (k : Key) (l1 l2 : list Key) :
  set_has (l1 ++ l2) k = set_has l1 k || set_has l2 k.
Proof. unfold set_has. apply existsb_app. Qed.

Lemma set_has_In x l : In x l -> set_has (map itemKey l) (itemKey x) = true.
Proof.
  intros Hin. unfold set_has. apply existsb_exists.
  exists (itemKey x). split; [now apply in_map|apply key_eqb_refl].
Qed.

Lemma mergeResults_covers S B x :
  In x B -> set_has (map itemKey (mergeResults S B)) (itemKey x) = true.
Proof.
  intros Hin. unfold mergeResults. rewrite map_app, set_has_app.
  destruct (set_has (map itemKey S) (itemKey x)) eqn:E; [reflexivity|].
  simpl. apply set_has_In. apply filter_In. split; [exact Hin|].
  now rewrite E.
Qed.

Lemma filter_none {A} (p : A -> bool) (xs : list A) :
  (forall a, In a xs -> p a = false) -> List.filter p xs = [].
Proof.
  induction xs as [|a xs IH]; intros H; simpl; [reflexivity|].
  rewrite (H a) by now left. apply IH. intros b Hb. apply H. now right.
Qed.

Lemma key_eqb_spec x y :
  key_eqb (itemKey x) (itemKey y) = true <->
  video_id x = video_id y /\ start x == start y /\ end_ x == end_ y.
Proof.
  unfold key_eqb, itemKey.
  rewrite !andb_true_iff, !Qeq_bool_iff, String.eqb_eq. tauto.
Qed.

(** C4.  Merging the same batch a second time changes nothing:
    [mergeResults (mergeResults S B) B = mergeResults S B].  Two hits have
    the same key exactly when they agree on video_id, start and end. *)
Theorem mergeResults_idempotent S B :
  mergeResults (mergeResults S B) B = mergeResults S B /\
  (forall x y,
     key_eqb (itemKey x) (itemKey y) = true <->
     video_id x = video_id y /\ start x == start y /\ end_ x == end_ y).
Proof.
  split; [|apply key_eqb_spec].
  unfold mergeResults at 1.
  rewrite filter_none; [apply app_nil_r|].
  intros x Hin. now rewrite mergeResults_covers.
Qed.

End MergeFacts.

Section DedupFacts.
Import SemanticSearch.
Implicit Types (S B l : list SearchResult) (x y : SearchResult).

Lemma set_has_false_iff (k : Key) l :
  set_has (map itemKey l) k = false <->
  forall y, In y l -> key_eqb k (itemKey y) = false.
Proof.
  unfold set_has. induction l as [|x l IH]; simpl.
  - split; [intros _ y []|reflexivity].
  - rewrite orb_false_iff, IH. split.
    + intros [Hx Hl] y [<-|Hy]; auto.
    + intros H. split; [apply H; now left|]. intros y Hy. apply H. now right.
Qed.

Lemma unique_keys_filter (p : SearchResult -> bool) l :
  unique_keys l -> unique_keys (List.filter p l).
Proof.
  induction l as [|x l IH]; simpl; [trivial|]. intros [Hx Hl].
  destruct (p x); simpl; [|now apply IH].
  split; [|now apply IH].
  rewrite set_has_false_iff in *. intros y Hy.
  apply Hx. now apply filter_In in Hy as [Hy _].
Qed.

Lemma unique_keys_app l1 l2 :
  unique_keys l1 -> unique_keys l2 ->
  (forall y, In y l2 -> set_has (map itemKey l1) (itemKey y) = false) ->
  unique_keys (l1 ++ l2).
Proof.
  induction l1 as [|x l1 IH]; simpl; intros H1 H2 Hcross; [exact H2|].
  destruct H1 as [Hx H1]. split.
  - rewrite set_has_false_iff in *. intros y Hy.
    apply in_app_or in Hy as [Hy|Hy]; [now apply Hx|].
    specialize (Hcross y Hy). simpl in Hcross.
    apply orb_false_iff in Hcross as [Hc _].
    now rewrite key_eqb_sym.
  - apply IH; [exact H1|exact H2|].
    intros y Hy. specialize (Hcross y Hy). simpl in Hcross.
    now apply orb_false_iff in Hcross as [_ Hc].
Qed.

(** The duplicate check of [loadMoreResults] keeps the keys unique when
    the batch itself has no repeated key. *)
Lemma mergeResults_unique_keys S B :
  unique_keys S -> unique_keys B -> unique_keys (mergeResults S B).
Proof.
  intros HS HB. unfold mergeResults.
  apply unique_keys_app; [exact HS|now apply unique_keys_filter|].
  intros y Hy. apply filter_In in Hy as [_ Hy].
  now apply negb_true_iff in Hy.
Qed.

(** C5.  A continuation round whose single batch holds two hits with the
    key (v1, 10, 20) leaves both in the aggregated results: the duplicate
    check of [loadMoreResults] compares the hits of a batch with the
    results already held, not with each other.  The first page of
    [handleTextSearch] is stored without any such check. *)
Theorem loadMoreResults_keeps_repeated_key_of_batch :
  let h := hit "v1" 10 20 "high" 0.9 "brand" in
  let page : string -> option string -> Outcome (option TokenPage) :=
    fun _ _ => Resolved (Some (mkTokenPage (Some [h; h])
                                 (Some (mkPageInfo None)))) in
  let body : string -> Outcome (option SearchBody) :=
    fun _ => Resolved (Some (mkSearchBody (Some [h; h]) None None None)) in
  map itemKey
    (enhancedResults
       (loadMoreResults (Some "brand"%string) (Some "creator"%string)
          details_portrait page
          (searched [] true {[ "brand"%string := Some "tA1"%string ]})))
  = [("v1"%string, 10, 20); ("v1"%string, 10, 20)] /\
  map itemKey
    (enhancedResults
       (handleTextSearch (Some "brand"%string) (Some "creator"%string)
          details_portrait body "cats"
          (searched [] false ∅)))
  = [("v1"%string, 10, 20); ("v1"%string, 10, 20)] /\
  count_key ("v1"%string, 10, 20) (mergeResults [] [h; h]) = 2%nat.
Proof. vm_compute. repeat split; reflexivity. Qed.

End DedupFacts.

(** ** Pagination state *)

Section PaginationFacts.
Import SemanticSearch.


Lemma setIsLoadingMore_idle (st : PageState) :
  isLoadingMore st = false ->
  setIsLoadingMore false (setIsLoadingMore true st) = st.
Proof. destruct st; simpl. now intros ->. Qed.

Section Rounds.
Variable brandIndexId creatorIndexId : option string.
Variable fetchVideoDetails : string -> string -> Outcome VideoDetails.
Variable searchByToken :
  string -> option string -> Outcome (option TokenPage).
Variable searchText : string -> Outcome (option SearchBody).

End Rounds.

End PaginationFacts.

Section PaginationRounds.
Import SemanticSearch.




End PaginationRounds.

(** ** The filtered view and the store *)

Section FilterFacts.
Import SemanticSearch.
Variable brandIndexId creatorIndexId : option string.

Lemma formatFilters_all (fs : list FormatFilter) :
  List.filter
    (fun f => bool_decide (f = vertical) || bool_decide (f = horizontal)) fs
  = fs.
Proof.
  induction fs as [|f fs IH]; simpl; [reflexivity|].
  destruct f; simpl; now rewrite IH.
Qed.

Lemma array_filter_spec (p : SearchResult -> bool)
  (σ : list (list SearchResult)) (a : nat) (l : list SearchResult) :
  σ !! a = Some l ->
  (array_filter p σ a).1 !! (array_filter p σ a).2 = Some (List.filter p l) /\
  ((array_filter p σ a).2 = length σ) /\
  (length (array_filter p σ a).1 = S (length σ)) /\
  (forall b, (b < length σ)%nat -> (array_filter p σ a).1 !! b = σ !! b).
Proof.
  intros Ha. unfold array_filter. simpl. rewrite Ha. simpl.
  repeat split.
  - apply list_lookup_middle. reflexivity.
  - rewrite length_app. simpl. lia.
  - intros b Hb. now apply lookup_app_l.
Qed.

Lemma array_sort_spec (cmp : SearchResult -> SearchResult -> number)
  (σ : list (list SearchResult)) (a : nat) (l : list SearchResult) :
  σ !! a = Some l ->
  (array_sort cmp σ a).1 !! (array_sort cmp σ a).2 = Some (js_sort cmp l) /\
  (forall b, b <> a -> (array_sort cmp σ a).1 !! b = σ !! b).
Proof.
  intros Ha. unfold array_sort. simpl. split.
  - rewrite list_lookup_alter_eq, Ha. reflexivity.
  - intros b Hb. now apply list_lookup_alter_ne.
Qed.

(** What [filteredResults] returns and what it does to the store: the
    view holds the filtered hits, sorted; every array that was in the
    store is left as it was, except that the array of the state itself is
    sorted when no filter is active. *)
Lemma filteredResults_spec (σ : list (list SearchResult)) (a : nat)
  (activeFilter : IndexFilter) (activeFilters : list FormatFilter)
  (l : list SearchResult) :
  σ !! a = Some l ->
  let out := filteredResults brandIndexId creatorIndexId σ a
               activeFilter activeFilters in
  out.1 !! out.2
  = Some (js_sort compareConfidence
            (filtered_hits brandIndexId creatorIndexId l
               activeFilter activeFilters)) /\
  (forall b, (b < length σ)%nat ->
     out.1 !! b =
     if bool_decide (b = a) && no_filter activeFilter activeFilters
     then Some (js_sort compareConfidence l)
     else σ !! b).
Proof.
  intros Ha. pose proof (lookup_lt_Some _ _ _ Ha) as Hlt.
  unfold filteredResults, filtered_hits.
  set (pi := matchesIndex brandIndexId creatorIndexId activeFilter).
  assert (Hstep1 :
    forall σ1 r1, (σ1, r1) =
      match activeFilter with
      | all => (σ, a)
      | _ => array_filter pi σ a
      end ->
    σ1 !! r1 = Some (match activeFilter with
                     | all => l | _ => List.filter pi l end) /\
    (length σ <= length σ1)%nat /\
    (forall b, (b < length σ)%nat -> σ1 !! b = σ !! b) /\
    (match activeFilter with all => r1 = a | _ => r1 = length σ end)).
  { intros σ1 r1 E.
    destruct (array_filter_spec pi σ a l Ha) as (F1 & F2 & F3 & F4).
    destruct activeFilter;
      [injection E as -> ->; repeat split; auto | ..];
      rewrite <- E in F1, F2, F3, F4; simpl in F1, F2, F3, F4;
      (split; [exact F1|split; [lia|split; [exact F4|exact F2]]]). }
  destruct (match activeFilter with
            | all => (σ, a) | _ => array_filter pi σ a end)
    as [σ1 r1] eqn:E1.
  destruct (Hstep1 σ1 r1 eq_refl) as (G1 & G2 & G3 & G4). clear Hstep1.
  set (l1 := match activeFilter with all => l | _ => List.filter pi l end)
    in *.
  destruct activeFilters as [|f fs].
  - (* no format filter *)
    simpl.
    destruct (array_sort_spec compareConfidence σ1 r1 l1 G1) as (S1 & S2).
    split; [exact S1|].
    intros b Hb. destruct (decide (b = a)) as [->|Hne].
    + rewrite bool_decide_eq_true_2 by reflexivity. simpl.
      destruct activeFilter; simpl.
      * subst r1. exact S1.
      * rewrite S2 by lia. now apply G3.
      * rewrite S2 by lia. now apply G3.
    + rewrite bool_decide_eq_false_2 by exact Hne. simpl.
      destruct (decide (b = r1)) as [->|Hr].
      * destruct activeFilter; [contradiction|lia|lia].
      * rewrite S2 by exact Hr. now apply G3.
  - (* a format filter is active *)
    change (0 <? length (f :: fs))%nat with true. cbv iota.
    rewrite formatFilters_all.
    change (0 <? length (f :: fs))%nat with true. cbv iota.
    destruct (array_filter_spec (matchesFormat (f :: fs)) σ1 r1 l1 G1)
      as (F1 & F2 & F3 & F4).
    destruct (array_filter (matchesFormat (f :: fs)) σ1 r1) as [σ2 r2].
    simpl in F1, F2, F3, F4.
    destruct (array_sort_spec compareConfidence σ2 r2 _ F1) as (S1 & S2).
    split; [exact S1|].
    intros b Hb.
    replace (bool_decide (b = a) && no_filter activeFilter (f :: fs))
      with false by (destruct activeFilter; simpl; now rewrite andb_false_r).
    rewrite S2 by lia. rewrite F4 by lia. now apply G3.
Qed.

End FilterFacts.

Section StateArray.
Import SemanticSearch.

(** C8.  With no filter selected, [filteredResults] hands the array of
    the [enhancedResults] state itself to [sort]: for a state array
    holding a low hit followed by a high hit, the view is the state array
    (same reference) and the state array now holds the high hit first.
    The aggregated list is reordered by computing the view. *)
Theorem filteredResults_sorts_state_array :
  let low := hit "v1" 0 5 "low" 0.4 "brand" in
  let high := hit "v2" 0 5 "high" 0.9 "creator" in
  let σ := [[low; high]] in
  let out := filteredResults (Some "brand"%string) (Some "creator"%string)
               σ 0%nat all [] in
  σ !! 0%nat = Some [low; high] /\
  out.2 = 0%nat /\
  out.1 !! 0%nat = Some [high; low].
Proof. vm_compute. repeat split; reflexivity. Qed.

End StateArray.

(** ** Format derivation *)

Section FormatFacts.
Import SemanticSearch.

Lemma truthy_number_true (x : number) : ~ x == 0 -> truthy_number x = true.
Proof.
  intros H. unfold truthy_number. apply negb_true_iff.
  apply not_true_iff_false. now rewrite Qeq_bool_iff.
Qed.

Lemma truthy_number_false (x : number) : x == 0 -> truthy_number x = false.
Proof.
  intros H. unfold truthy_number. apply negb_false_iff.
  now apply Qeq_bool_iff.
Qed.

Lemma deriveFormat_has_dimensions (d : VideoDetails) (w h : number) :
  has_dimensions d w h ->
  deriveFormat d = Some (if Qle_bool h w then horizontal else vertical).
Proof.
  intros (sm & Hsm & Hw & Hh & Hw0 & Hh0). unfold deriveFormat.
  rewrite Hsm, Hw, Hh, (truthy_number_true w Hw0), (truthy_number_true h Hh0).
  simpl. now destruct (Qle_bool h w).
Qed.

Lemma deriveFormat_no_dimensions (d : VideoDetails) :
  (forall w h, ~ has_dimensions d w h) -> deriveFormat d = None.
Proof.
  intros Hno. unfold deriveFormat.
  destruct (system_metadata d) as [sm|] eqn:Hsm; [|reflexivity].
  destruct (width sm) as [w|] eqn:Hw; [|reflexivity].
  destruct (height sm) as [h|] eqn:Hh; [|reflexivity].
  destruct (truthy_number w) eqn:Tw; [|reflexivity].
  destruct (truthy_number h) eqn:Th; [|reflexivity].
  exfalso. apply (Hno w h). exists sm. repeat split; auto.
  - intros Hz. rewrite (truthy_number_false w Hz) in Tw. discriminate.
  - intros Hz. rewrite (truthy_number_false h Hz) in Th. discriminate.
Qed.

Lemma view_has_formats (brandIndexId creatorIndexId : option string)
  (l : list SearchResult) (activeFilter : IndexFilter)
  (f : FormatFilter) (fs : list FormatFilter) :
  Forall (fun r => format r <> None)
    (js_sort compareConfidence
       (filtered_hits brandIndexId creatorIndexId l activeFilter (f :: fs))).
Proof.
  eapply Permutation_Forall; [symmetry; apply js_sort_perm|].
  unfold filtered_hits. apply Forall_forall. intros r Hr.
  apply list_elem_of_In, filter_In in Hr as [_ Hr].
  unfold matchesFormat in Hr. now destruct (format r).
Qed.

(** C9, as amended.  When the details of a hit carry a width and a
    height that are both different from 0, its format is horizontal
    exactly when the width is at least the height (a tie is horizontal)
    and vertical otherwise; when they carry no such pair (a dimension is
    absent or 0) the hit has no format.  A hit that is enhanced with its
    details gets that format, and the view of a non-empty format filter
    holds no hit without format.  (1920, 1080) is horizontal,
    (1080, 1920) is vertical and (1000, 1000) is horizontal. *)
Theorem format_derivation :
  (forall d w h,
     has_dimensions d w h ->
     (deriveFormat d = Some horizontal <-> h <= w) /\
     (deriveFormat d = Some vertical <-> ~ h <= w)) /\
  (forall d, (forall w h, ~ has_dimensions d w h) -> deriveFormat d = None) /\
  (forall fetchVideoDetails r d,
     fetchVideoDetails (video_id r) (index_id r) = Resolved d ->
     format (withDetails fetchVideoDetails r) = deriveFormat d) /\
  (forall r fs, format r = None -> matchesFormat fs r = false) /\
  (forall brandIndexId creatorIndexId σ a l activeFilter activeFilters,
     σ !! a = Some l -> activeFilters <> [] ->
     let out := filteredResults brandIndexId creatorIndexId σ a
                  activeFilter activeFilters in
     exists view, out.1 !! out.2 = Some view /\
                  Forall (fun r => format r <> None) view) /\
  deriveFormat (dims 1920 1080) = Some horizontal /\
  deriveFormat (dims 1080 1920) = Some vertical /\
  deriveFormat (dims 1000 1000) = Some horizontal.
Proof.
  split; [|split; [|split; [|split; [|split]]]].
  - intros d w h Hd. rewrite (deriveFormat_has_dimensions d w h Hd).
    destruct (Qle_bool h w) eqn:E.
    + apply Qle_bool_iff in E. split; split; intros; auto; try discriminate.
      contradiction.
    + assert (~ h <= w) by (rewrite <- Qle_bool_iff; congruence).
      split; split; intros; auto; try discriminate. contradiction.
  - apply deriveFormat_no_dimensions.
  - intros fetchVideoDetails r d Hd. unfold withDetails. now rewrite Hd.
  - intros r fs Hr. unfold matchesFormat. now rewrite Hr.
  - intros brandIndexId creatorIndexId σ a l activeFilter activeFilters
      Ha Hne out.
    destruct (filteredResults_spec brandIndexId creatorIndexId σ a
                activeFilter activeFilters l Ha) as [Hview _].
    eexists. split; [exact Hview|].
    destruct activeFilters as [|f fs]; [contradiction|].
    apply view_has_formats.
  - repeat split.
Qed.

Lemma format_derivation_witness :
  ((deriveFormat (dims 1000 1000) = Some horizontal <-> 1000 <= 1000) /\
   (deriveFormat (dims 1000 1000) = Some vertical <-> ~ 1000 <= 1000)) /\
  deriveFormat (mkVideoDetails None) = None /\
  format (withDetails (fun _ _ => Resolved (dims 1080 1920))
            (hit "v1" 10 20 "high" 0.9 "brand")) = Some vertical /\
  matchesFormat [vertical; horizontal] (hit "v1" 10 20 "high" 0.9 "brand")
  = false /\
  exists view,
    (filteredResults None None [[hit "v1" 10 20 "high" 0.9 "brand"]]
       0%nat all [vertical]).1
    !! (filteredResults None None [[hit "v1" 10 20 "high" 0.9 "brand"]]
          0%nat all [vertical]).2 = Some view /\
    Forall (fun r => format r <> None) view.
Proof.
  destruct format_derivation as (F1 & F2 & F3 & F4 & F5 & _).
  split; [|split; [|split; [|split]]].
  - apply (F1 (dims 1000 1000) 1000 1000).
    exists (mkSystemMetadata (Some 1000) (Some 1000)).
    repeat split; try reflexivity; intros H; discriminate H.
  - apply (F2 (mkVideoDetails None)).
    intros w h (sm & Hsm & _). discriminate Hsm.
  - apply (F3 (fun _ _ => Resolved (dims 1080 1920))
              (hit "v1" 10 20 "high" 0.9 "brand") (dims 1080 1920)).
    reflexivity.
  - apply (F4 (hit "v1" 10 20 "high" 0.9 "brand") [vertical; horizontal]).
    reflexivity.
  - apply (F5 None None [[hit "v1" 10 20 "high" 0.9 "brand"]] 0%nat
             [hit "v1" 10 20 "high" 0.9 "brand"] all [vertical]).
    + reflexivity.
    + discriminate.
Defined.

(** C9, as stated, fails for a width and a height of 0: the width is at
    least the height, yet the hit gets no format. *)
Lemma format_of_zero_dimensions :
  ~ (deriveFormat (dims 0 0) = Some horizontal <-> 0 <= 0).
Proof.
  intros [_ H]. assert (Hle : 0 <= 0) by apply Qle_refl.
  apply H in Hle. vm_compute in Hle. discriminate Hle.
Qed.

End FormatFacts.

(** ** Further facts about the cross-modal combiner *)

Section CombinerIds.
Import BrandMatch.
Implicit Types (m : list (string * EmbeddingSearchResult))
  (r e : EmbeddingSearchResult) (l : list EmbeddingSearchResult)
  (k : string).

Lemma video_ids_cons r l k :
  k ∈ video_ids (r :: l) <->
  truthy_string (videoId_of r) = Some k \/ k ∈ video_ids l.
Proof.
  unfold video_ids. simpl.
  destruct (truthy_string (videoId_of r)) as [k'|].
  - rewrite elem_of_cons. intuition congruence.
  - split; [auto|]. intros [H|H]; [discriminate|exact H].
Qed.

Lemma processText_keys m r k :
  k ∈ map fst (processText m r) <->
  k ∈ map fst m \/ truthy_string (videoId_of r) = Some k.
Proof.
  unfold processText.
  destruct (truthy_string (videoId_of r)) as [k'|].
  - rewrite map_set_keys. intuition congruence.
  - split; [auto|]. intros [H|H]; [exact H|discriminate].
Qed.

Lemma processVideo_keys m r k :
  k ∈ map fst (processVideo m r) <->
  k ∈ map fst m \/ truthy_string (videoId_of r) = Some k.
Proof.
  unfold processVideo.
  destruct (truthy_string (videoId_of r)) as [k'|].
  - destruct (map_get k' m); rewrite map_set_keys; intuition congruence.
  - split; [auto|]. intros [H|H]; [exact H|discriminate].
Qed.

Lemma foldl_keys
  (f : list (string * EmbeddingSearchResult) -> EmbeddingSearchResult ->
       list (string * EmbeddingSearchResult)) l m k :
  (forall m r k, k ∈ map fst (f m r) <->
                 k ∈ map fst m \/ truthy_string (videoId_of r) = Some k) ->
  k ∈ map fst (foldl f m l) <-> k ∈ map fst m \/ k ∈ video_ids l.
Proof.
  intros Hf. revert m. induction l as [|r l IH]; intros m.
  - unfold video_ids. simpl. rewrite elem_of_nil. tauto.
  - rewrite video_ids_cons. cbn [foldl]. rewrite IH, Hf. tauto.
Qed.

Lemma keyed_ids m : keyed m -> video_ids (map snd m) = map fst m.
Proof.
  unfold keyed, video_ids. induction 1 as [|[k e] m Hk Hm IH]; simpl.
  - reflexivity.
  - simpl in Hk. rewrite Hk. simpl. f_equal. exact IH.
Qed.

Lemma combineSearchResults_ids_perm l1 l2 :
  video_ids (combineSearchResults l1 l2)
  ≡ₚ map fst (buildResultMap l1 l2).
Proof.
  unfold combineSearchResults, map_values.
  rewrite <- (keyed_ids _ (buildResultMap_keyed l1 l2)).
  unfold video_ids. apply omap_Permutation. apply js_sort_perm.
Qed.

(** Every accepted video id of the two lists has exactly one entry in the
    combined ranking, and no other id has one. *)
Theorem combineSearchResults_one_entry_per_id l1 l2 :
  NoDup (video_ids (combineSearchResults l1 l2)) /\
  (forall k, k ∈ video_ids (combineSearchResults l1 l2) <->
             k ∈ video_ids l1 \/ k ∈ video_ids l2).
Proof.
  split.
  - rewrite combineSearchResults_ids_perm. apply buildResultMap_keys_NoDup.
  - intros k. rewrite combineSearchResults_ids_perm. unfold buildResultMap.
    rewrite (foldl_keys processVideo l2 _ k processVideo_keys).
    rewrite (foldl_keys processText l1 [] k processText_keys).
    simpl. rewrite elem_of_nil. tauto.
Qed.

Lemma combineSearchResults_unique_video_ids_witness :
  let e := asBoth (asText (Scenario.hit "v1" 0.8)) (Scenario.hit "v1" 0.6) in
  originalSource e = Some "BOTH"%string /\
  score e = Qmax (or_zero (Some 0.8)) 0.6 * 1.15.
Proof.
  apply (combineSearchResults_unique_video_ids
           [Scenario.hit "v1" 0.8]
           [Scenario.hit "v1" 0.6; Scenario.hit "v2" 1.2]
           (asBoth (asText (Scenario.hit "v1" 0.8)) (Scenario.hit "v1" 0.6))
           "v1"%string).
  - apply (bool_decide_unpack _). vm_compute. exact I.
  - right. left. reflexivity.
  - reflexivity.
Defined.

End CombinerIds.

(** ** Further facts about [handleFindMatches] *)

Section FindMatchesOutcomes.
Import BrandMatch.

Ltac step_handler :=
  cbv [mbind mret handler_bind handler_ret getState setState early_return
       await await_all2 invoke settle try_catch_finally];
  cbn [fst snd app negb].

(** With a video selected, a successful readiness check and two searches
    that deliver, [handleFindMatches] stores the combined ranking of the
    two result lists, has called the check, the two searches and the
    combiner in that order, and ends with [isAnalyzing] off,
    [embeddingsReady] on and the progress of the check recorded. *)
Theorem handleFindMatches_stores_combined_ranking
  (env : Collaborators) (st : PageState) videoId r textResults videoResults :
  truthy_string (selectedVideoId st) = Some videoId ->
  checkAndEnsureEmbeddings env videoId = Resolved r ->
  success r = true ->
  textToVideoEmbeddingSearch env videoId = Resolved textResults ->
  videoToVideoEmbeddingSearch env videoId = Resolved videoResults ->
  let out := run_handleFindMatches env st in
  similarResults out.1 = combineSearchResults textResults videoResults /\
  out.2 = [CallCheckAndEnsureEmbeddings videoId;
           CallTextToVideoEmbeddingSearch videoId;
           CallVideoToVideoEmbeddingSearch videoId;
           CallCombineSearchResults] /\
  isAnalyzing out.1 = false /\
  embeddingsReady out.1 = true /\
  isLoadingEmbeddings out.1 = false /\
  targetEmbeddingsProgress out.1 = (processedCount r, totalCount r).
Proof.
  intros Hsel Hcheck Hok Htext Hvideo.
  unfold run_handleFindMatches, handleFindMatches.
  step_handler. rewrite Hsel. step_handler. rewrite Hcheck. step_handler.
  rewrite Hok. step_handler. rewrite Htext, Hvideo. step_handler.
  repeat split.
Qed.

Lemma handleFindMatches_stores_combined_ranking_witness :
  let out := run_handleFindMatches env_ready
               (page0 (Some "src"%string) [Scenario.hit "old" 2]) in
  similarResults out.1
  = combineSearchResults [Scenario.hit "v1" 0.8]
      [Scenario.hit "v1" 0.6; Scenario.hit "v2" 1.2] /\
  out.2 = [CallCheckAndEnsureEmbeddings "src";
           CallTextToVideoEmbeddingSearch "src";
           CallVideoToVideoEmbeddingSearch "src";
           CallCombineSearchResults] /\
  isAnalyzing out.1 = false /\
  embeddingsReady out.1 = true /\
  isLoadingEmbeddings out.1 = false /\
  targetEmbeddingsProgress out.1 = (5, 5)%Z.
Proof.
  apply (handleFindMatches_stores_combined_ranking env_ready
           (page0 (Some "src"%string) [Scenario.hit "old" 2])
           "src"%string (mkReadiness 5 5 true)
           [Scenario.hit "v1" 0.8]
           [Scenario.hit "v1" 0.6; Scenario.hit "v2" 1.2]);
    reflexivity.
Defined.

(** With a video selected, when the readiness check or one of the two
    searches throws, [handleFindMatches] leaves the match list empty, never
    calls the combiner and ends with [isAnalyzing] off.  When it is the
    readiness check that throws, [isLoadingEmbeddings] and
    [isProcessingTargetEmbeddings] are left on. *)
Theorem handleFindMatches_when_a_call_throws
  (env : Collaborators) (st : PageState) videoId :
  truthy_string (selectedVideoId st) = Some videoId ->
  let out := run_handleFindMatches env st in
  ((exists msg, checkAndEnsureEmbeddings env videoId = Rejected msg) ->
   similarResults out.1 = [] /\ isAnalyzing out.1 = false /\
   out.2 = [CallCheckAndEnsureEmbeddings videoId] /\
   isLoadingEmbeddings out.1 = true /\
   isProcessingTargetEmbeddings out.1 = true /\
   embeddingsReady out.1 = embeddingsReady st) /\
  (forall r,
     checkAndEnsureEmbeddings env videoId = Resolved r ->
     success r = true ->
     (exists msg, textToVideoEmbeddingSearch env videoId = Rejected msg) \/
     (exists msg, videoToVideoEmbeddingSearch env videoId = Rejected msg) ->
     similarResults out.1 = [] /\ isAnalyzing out.1 = false /\
     embeddingsReady out.1 = true /\
     out.2 = [CallCheckAndEnsureEmbeddings videoId;
              CallTextToVideoEmbeddingSearch videoId;
              CallVideoToVideoEmbeddingSearch videoId]).
Proof.
  intros Hsel. unfold run_handleFindMatches, handleFindMatches. split.
  - intros [msg Hcheck].
    step_handler. rewrite Hsel. step_handler. rewrite Hcheck. step_handler.
    repeat split.
  - intros r Hcheck Hok Hfail.
    step_handler. rewrite Hsel. step_handler. rewrite Hcheck. step_handler.
    rewrite Hok. step_handler.
    destruct Hfail as [[msg H]|[msg H]].
    + rewrite H. step_handler. repeat split.
    + rewrite H.
      destruct (textToVideoEmbeddingSearch env videoId); step_handler;
        repeat split.
Qed.

Lemma handleFindMatches_when_a_call_throws_witness :
  let env := mkCollaborators
               (fun _ => Rejected (Some "network"%string))
               (fun _ => Resolved []) (fun _ => Resolved []) in
  let out := run_handleFindMatches env
               (page0 (Some "src"%string) [Scenario.hit "old" 2]) in
  similarResults out.1 = [] /\ isAnalyzing out.1 = false /\
  out.2 = [CallCheckAndEnsureEmbeddings "src"] /\
  isLoadingEmbeddings out.1 = true /\
  isProcessingTargetEmbeddings out.1 = true /\
  embeddingsReady out.1 = false.
Proof.
  apply (proj1 (handleFindMatches_when_a_call_throws
                  (mkCollaborators
                     (fun _ => Rejected (Some "network"%string))
                     (fun _ => Resolved []) (fun _ => Resolved []))
                  (page0 (Some "src"%string) [Scenario.hit "old" 2])
                  "src"%string eq_refl)).
  exists (Some "network"%string). reflexivity.
Defined.

(** With a video selected, the result panel is shown after
    [handleFindMatches] exactly when the readiness check succeeded, both
    searches delivered and their combined ranking is not empty. *)
Theorem showResults_after_handleFindMatches
  (env : Collaborators) (st : PageState) videoId :
  truthy_string (selectedVideoId st) = Some videoId ->
  showResults (run_handleFindMatches env st).1 = true <->
  exists r textResults videoResults,
    checkAndEnsureEmbeddings env videoId = Resolved r /\
    success r = true /\
    textToVideoEmbeddingSearch env videoId = Resolved textResults /\
    videoToVideoEmbeddingSearch env videoId = Resolved videoResults /\
    combineSearchResults textResults videoResults <> [].
Proof.
  intros Hsel. unfold showResults, run_handleFindMatches, handleFindMatches.
  step_handler. rewrite Hsel. step_handler.
  destruct (checkAndEnsureEmbeddings env videoId) as [msg|r] eqn:Hcheck;
    step_handler.
  { split; [discriminate|]. intros (r & t & v & H & _). discriminate H. }
  destruct (success r) eqn:Hok; step_handler.
  2:{ split; [discriminate|]. intros (r' & t & v & H & Hs & _).
      injection H as <-. congruence. }
  destruct (textToVideoEmbeddingSearch env videoId) as [msg|t] eqn:Htext;
    step_handler.
  { split; [discriminate|]. intros (r' & t & v & _ & _ & H & _).
    discriminate H. }
  destruct (videoToVideoEmbeddingSearch env videoId) as [msg|v] eqn:Hvideo;
    step_handler.
  { split; [discriminate|]. intros (r' & t' & v & _ & _ & _ & H & _).
    discriminate H. }
  cbn. rewrite !andb_true_r. split.
  - intros Hlen. exists r, t, v. repeat split; auto.
    intros Hnil. rewrite Hnil in Hlen. discriminate Hlen.
  - intros (r' & t' & v' & _ & _ & Ht & Hv & Hne).
    injection Ht as <-. injection Hv as <-.
    destruct (combineSearchResults t v); [contradiction|reflexivity].
Qed.

Lemma showResults_after_handleFindMatches_witness :
  showResults
    (run_handleFindMatches env_ready (page0 (Some "src"%string) [])).1 = true.
Proof.
  apply (proj2 (showResults_after_handleFindMatches env_ready
                  (page0 (Some "src"%string) []) "src"%string eq_refl)).
  exists (mkReadiness 5 5 true), [Scenario.hit "v1" 0.8],
    [Scenario.hit "v1" 0.6; Scenario.hit "v2" 1.2].
  repeat split; try reflexivity. discriminate.
Defined.

End FindMatchesOutcomes.

(** ** Further facts about the search rounds *)

Section SearchRoundFacts.
Import SemanticSearch.
Variable brandIndexId creatorIndexId : option string.
Variable fetchVideoDetails : string -> string -> Outcome VideoDetails.

Lemma withDetails_key (r : SearchResult) :
  itemKey (withDetails fetchVideoDetails r) = itemKey r /\
  index_id (withDetails fetchVideoDetails r) = index_id r /\
  confidence (withDetails fetchVideoDetails r) = confidence r /\
  score (withDetails fetchVideoDetails r) = score r.
Proof.
  unfold withDetails.
  destruct (fetchVideoDetails (video_id r) (index_id r)); repeat split.
Qed.

(** [fetchVideoDetailsForResults] returns one hit for every hit it is
    given, in the same order and with the same key, index, confidence and
    score.  A hit whose details were fetched carries them and the format
    derived from them; a hit whose fetch failed is returned as it was.
    The results of the state are replaced only when the call is not for a
    continuation. *)
Theorem fetchVideoDetailsForResults_keeps_every_hit
  (results : list SearchResult) (isLoadMore : bool) (st : PageState) :
  let out := fetchVideoDetailsForResults fetchVideoDetails results
               isLoadMore st in
  Forall2
    (fun r r' =>
       itemKey r' = itemKey r /\ index_id r' = index_id r /\
       confidence r' = confidence r /\ score r' = score r /\
       match fetchVideoDetails (video_id r) (index_id r) with
       | Resolved d => videoDetails r' = Some d /\ format r' = deriveFormat d
       | Rejected _ => r' = r
       end)
    results out.1 /\
  out.2 = (if isLoadMore then st else setEnhancedResults out.1 st).
Proof.
  unfold fetchVideoDetailsForResults. simpl. split.
  - induction results as [|r results IH]; simpl; constructor; [|exact IH].
    destruct (withDetails_key r) as (K1 & K2 & K3 & K4).
    repeat split; auto.
    unfold withDetails.
    destruct (fetchVideoDetails (video_id r) (index_id r)); auto.
  - now destruct isLoadMore.
Qed.

Section WithSearch.
Variable searchText : string -> Outcome (option SearchBody).

(** When the text search request fails, [handleTextSearch] leaves the page
    with no results, the error message chosen from the failure and
    [isSearching] off; the totals, the page counter, the [hasMoreResults]
    flag and the continuation tokens of the search before are left as they
    were. *)
Theorem handleTextSearch_when_request_fails
  (searchQuery : string) (st : PageState) thrown :
  blank searchQuery = false ->
  searchText searchQuery = Rejected thrown ->
  let st' := handleTextSearch brandIndexId creatorIndexId fetchVideoDetails
               searchText searchQuery st in
  enhancedResults st' = [] /\
  error st' = Some (errorMessage thrown) /\
  isSearching st' = false /\ hasSearched st' = true /\
  totalResults st' = totalResults st /\
  currentPage st' = currentPage st /\
  hasMoreResults st' = hasMoreResults st /\
  nextPageTokens st' = nextPageTokens st.
Proof.
  intros Hq Hresp. unfold handleTextSearch. rewrite Hq, Hresp. simpl.
  repeat split.
Qed.

(** When the text search delivers hits, [handleTextSearch] shows exactly
    those hits, in the order of the response and enhanced with their
    details, on page 1, with no error and [isSearching] off; the total shown
    for all partitions is the sum of the totals of the two partitions. *)
Theorem handleTextSearch_shows_first_page
  (searchQuery : string) (st : PageState)
  (allResults : list SearchResult) info tokens serverHasMore :
  blank searchQuery = false ->
  searchText searchQuery
  = Resolved (Some (mkSearchBody (Some allResults) info tokens
                      serverHasMore)) ->
  let st' := handleTextSearch brandIndexId creatorIndexId fetchVideoDetails
               searchText searchQuery st in
  enhancedResults st' = map (withDetails fetchVideoDetails) allResults /\
  map itemKey (enhancedResults st') = map itemKey allResults /\
  currentPage st' = 1%Z /\
  error st' = None /\ isSearching st' = false /\ hasSearched st' = true /\
  (let '(totalAll, totalBrands, totalCreators) := totalResults st' in
   totalAll = totalBrands + totalCreators).
Proof.
  intros Hq Hresp. unfold handleTextSearch. rewrite Hq, Hresp. simpl.
  repeat split.
  rewrite map_map. apply map_ext. intros r. apply withDetails_key.
Qed.

End WithSearch.

Section WithToken.
Variable searchByToken : string -> option string -> Outcome (option TokenPage).

(** A continuation round only appends: the results held before are a
    prefix of the results held after, every appended hit has a key that no
    earlier result has, and the round changes neither the loading flag nor
    the search status, the error or the totals. *)
Theorem loadMoreResults_only_appends (st : PageState) :
  let st' := loadMoreResults brandIndexId creatorIndexId fetchVideoDetails
               searchByToken st in
  (exists appended,
     enhancedResults st' = enhancedResults st ++ appended /\
     Forall (fun x => set_has (map itemKey (enhancedResults st)) (itemKey x)
                      = false) appended) /\
  isLoadingMore st' = isLoadingMore st /\
  isSearching st' = isSearching st /\
  hasSearched st' = hasSearched st /\
  error st' = error st /\
  totalResults st' = totalResults st.
Proof.
  assert (Hnil : exists appended,
            enhancedResults st = enhancedResults st ++ appended /\
            Forall (fun x => set_has (map itemKey (enhancedResults st))
                               (itemKey x) = false) appended).
  { exists []. split; [now rewrite app_nil_r|constructor]. }
  unfold loadMoreResults.
  destruct (negb (hasMoreResults st) || isLoadingMore st) eqn:G.
  { simpl. auto 10. }
  apply orb_false_iff in G as [_ Hidle].
  match goal with |- context [length ?rs =? 0] => generalize rs end.
  intros requests.
  destruct (length requests =? 0)%nat; [simpl; auto 10|].
  destruct (promise_all requests) as [msg|responses]; [simpl; auto 10|].
  destruct (foldl collectResponse ([], nextPageTokens st) responses)
    as [newResults newTokens].
  unfold fetchVideoDetailsForResults. simpl negb. cbv iota.
  destruct (0 <? length (map (withDetails fetchVideoDetails) newResults))%nat;
    [|simpl; auto 10].
  simpl. split; [|auto].
  eexists. split; [reflexivity|].
  apply Forall_forall. intros x Hx.
  apply list_elem_of_In, filter_In in Hx as [_ Hx].
  now apply negb_true_iff in Hx.
Qed.

(** When a continuation request that the round issues fails, the round
    changes nothing: whatever the other partition delivered is dropped and
    the tokens stay as they were. *)
Theorem loadMoreResults_when_a_request_fails (st : PageState) t msg :
  (truthy_token (nextPageTokens st !! property_key brandIndexId) = Some t /\
   searchByToken t brandIndexId = Rejected msg) \/
  (truthy_token (nextPageTokens st !! property_key creatorIndexId) = Some t /\
   searchByToken t creatorIndexId = Rejected msg) ->
  loadMoreResults brandIndexId creatorIndexId fetchVideoDetails
    searchByToken st = st.
Proof.
  intros Hfail. unfold loadMoreResults.
  destruct (negb (hasMoreResults st) || isLoadingMore st) eqn:G;
    [reflexivity|].
  apply orb_false_iff in G as [_ Hidle].
  destruct Hfail as [[Ht Hr]|[Ht Hr]].
  - rewrite Ht. unfold request. rewrite Hr. simpl.
    now apply setIsLoadingMore_idle.
  - rewrite Ht.
    destruct (truthy_token (nextPageTokens st !! property_key brandIndexId))
      as [tb|]; simpl.
    + unfold request. rewrite Hr.
      destruct (searchByToken tb brandIndexId); simpl;
        now apply setIsLoadingMore_idle.
    + unfold request. rewrite Hr. simpl. now apply setIsLoadingMore_idle.
Qed.

End WithToken.

(** A continuation round asks a partition only for the token stored for
    it: two continuation endpoints that answer alike for the stored,
    non-empty tokens of the two partitions give the same round, whatever
    they answer elsewhere. *)
Theorem loadMoreResults_asks_only_stored_tokens
  (searchByToken searchByToken' :
     string -> option string -> Outcome (option TokenPage))
  (st : PageState) :
  (forall t,
     truthy_token (nextPageTokens st !! property_key brandIndexId) = Some t ->
     searchByToken t brandIndexId = searchByToken' t brandIndexId) ->
  (forall t,
     truthy_token (nextPageTokens st !! property_key creatorIndexId) = Some t ->
     searchByToken t creatorIndexId = searchByToken' t creatorIndexId) ->
  loadMoreResults brandIndexId creatorIndexId fetchVideoDetails
    searchByToken st
  = loadMoreResults brandIndexId creatorIndexId fetchVideoDetails
      searchByToken' st.
Proof.
  intros Hb Hc. unfold loadMoreResults.
  destruct (negb (hasMoreResults st) || isLoadingMore st); [reflexivity|].
  destruct (truthy_token (nextPageTokens st !! property_key brandIndexId))
    as [tb|];
    destruct (truthy_token (nextPageTokens st !! property_key creatorIndexId))
      as [tc|];
    unfold request;
    try rewrite (Hb tb eq_refl); try rewrite (Hc tc eq_refl); reflexivity.
Qed.

End SearchRoundFacts.

Lemma handleTextSearch_when_request_fails_witness :
  let st := searched [hit "v1" 10 20 "high" 0.9 "brand"] true
              {[ "brand"%string := Some "tA1"%string ]} in
  let st' := SemanticSearch.handleTextSearch (Some "brand"%string)
               (Some "creator"%string) details_portrait
               (fun _ => Rejected (Some "Request failed with status code 500"%string))
               "cats" st in
  SemanticSearch.enhancedResults st' = [] /\
  SemanticSearch.error st'
  = Some (SemanticSearch.errorMessage
            (Some "Request failed with status code 500"%string)) /\
  SemanticSearch.isSearching st' = false /\
  SemanticSearch.hasSearched st' = true /\
  SemanticSearch.totalResults st' = SemanticSearch.totalResults st /\
  SemanticSearch.currentPage st' = SemanticSearch.currentPage st /\
  SemanticSearch.hasMoreResults st' = SemanticSearch.hasMoreResults st /\
  SemanticSearch.nextPageTokens st' = SemanticSearch.nextPageTokens st.
Proof.
  apply (handleTextSearch_when_request_fails (Some "brand"%string)
           (Some "creator"%string) details_portrait
           (fun _ => Rejected (Some "Request failed with status code 500"%string))
           "cats"%string
           (searched [hit "v1" 10 20 "high" 0.9 "brand"] true
              {[ "brand"%string := Some "tA1"%string ]})
           (Some "Request failed with status code 500"%string));
    reflexivity.
Defined.

Lemma handleTextSearch_shows_first_page_witness :
  let st' := SemanticSearch.handleTextSearch (Some "brand"%string)
               (Some "creator"%string) details_portrait
               body_more_without_tokens "cats" (searched [] false ∅) in
  SemanticSearch.enhancedResults st'
  = map (SemanticSearch.withDetails details_portrait)
      [hit "v1" 10 20 "high" 0.9 "brand"] /\
  map SemanticSearch.itemKey (SemanticSearch.enhancedResults st')
  = map SemanticSearch.itemKey [hit "v1" 10 20 "high" 0.9 "brand"] /\
  SemanticSearch.currentPage st' = 1%Z /\
  SemanticSearch.error st' = None /\
  SemanticSearch.isSearching st' = false /\
  SemanticSearch.hasSearched st' = true /\
  (let '(totalAll, totalBrands, totalCreators) :=
     SemanticSearch.totalResults st' in
   totalAll = totalBrands + totalCreators).
Proof.
  apply (handleTextSearch_shows_first_page (Some "brand"%string)
           (Some "creator"%string) details_portrait
           body_more_without_tokens "cats"%string (searched [] false ∅)
           [hit "v1" 10 20 "high" 0.9 "brand"] None None (Some true));
    reflexivity.
Defined.

Lemma loadMoreResults_when_a_request_fails_witness :
  let st := searched [hit "v1" 10 20 "high" 0.9 "brand"] true
              {[ "brand"%string := Some "tA1"%string ]} in
  SemanticSearch.loadMoreResults (Some "brand"%string)
    (Some "creator"%string) details_portrait (fun _ _ => Rejected None) st
  = st.
Proof.
  apply (loadMoreResults_when_a_request_fails (Some "brand"%string)
           (Some "creator"%string) details_portrait
           (fun _ _ => Rejected None)
           (searched [hit "v1" 10 20 "high" 0.9 "brand"] true
              {[ "brand"%string := Some "tA1"%string ]})
           "tA1"%string None).
  left. split; reflexivity.
Defined.

Lemma loadMoreResults_asks_only_stored_tokens_witness :
  let st := searched [hit "v1" 10 20 "high" 0.9 "brand"] true
              {[ "brand"%string := Some "tA1"%string ]} in
  SemanticSearch.loadMoreResults (Some "brand"%string)
    (Some "creator"%string) details_portrait
    (fun t _ => if String.eqb t "tA1" then page_without_hits t None
                else Rejected None) st
  = SemanticSearch.loadMoreResults (Some "brand"%string)
      (Some "creator"%string) details_portrait page_without_hits st.
Proof.
  apply (loadMoreResults_asks_only_stored_tokens (Some "brand"%string)
           (Some "creator"%string) details_portrait
           (fun t _ => if String.eqb t "tA1" then page_without_hits t None
                       else Rejected None)
           page_without_hits
           (searched [hit "v1" 10 20 "high" 0.9 "brand"] true
              {[ "brand"%string := Some "tA1"%string ]})).
  - intros t Ht. vm_compute in Ht. injection Ht as <-. reflexivity.
  - intros t Ht. vm_compute in Ht. discriminate Ht.
Defined.

(** ** Further facts about merging and the filtered view *)

Section ViewFacts.
Import SemanticSearch.
Variable brandIndexId creatorIndexId : option string.

Lemma or_zero_Some (x : number) : or_zero (Some x) == x.
Proof.
  unfold or_zero, truthy_number.
  destruct (Qeq_bool x 0) eqn:E; simpl; [|reflexivity].
  apply Qeq_bool_iff in E. now symmetry.
Qed.

Lemma compareConfidence_before (a b : SearchResult) :
  sorts_before compareConfidence a b <-> confidence_ranked a b.
Proof.
  unfold sorts_before, compareConfidence, confidence_ranked.
  generalize (getConfidencePriority (confidence a))
             (getConfidencePriority (confidence b)).
  intros pa pb.
  destruct (Z.eqb_spec (pb - pa) 0) as [Heq|Hne].
  - rewrite !or_zero_Some. split.
    + intros H. right. split; [lia|lra].
    + intros [H|[_ H]]; [lia|lra].
  - change 0 with (inject_Z 0). rewrite <- Zle_Qle. split.
    + intros H. left. lia.
    + intros [H|[H _]]; lia.
Qed.

Lemma confidence_ranked_total (a b : SearchResult) :
  confidence_ranked a b \/ confidence_ranked b a.
Proof.
  unfold confidence_ranked.
  generalize (getConfidencePriority (confidence a))
             (getConfidencePriority (confidence b)).
  intros pa pb.
  destruct (Z.lt_trichotomy pa pb) as [H|[H|H]];
    [right; left; exact H | | left; left; exact H].
  destruct (Qlt_le_dec (score a) (score b)) as [Hs|Hs].
  - right. right. split; [easy|lra].
  - left. right. split; [easy|exact Hs].
Qed.

Lemma confidence_ranked_trans (a b c : SearchResult) :
  confidence_ranked a b -> confidence_ranked b c -> confidence_ranked a c.
Proof.
  unfold confidence_ranked.
  generalize (getConfidencePriority (confidence a))
             (getConfidencePriority (confidence b))
             (getConfidencePriority (confidence c)).
  intros pa pb pc.
  intros [H1|[H1 S1]] [H2|[H2 S2]]; try (left; lia).
  right. split; [lia|lra].
Qed.

Lemma filtered_hits_elem (l : list SearchResult) (activeFilter : IndexFilter)
  (activeFilters : list FormatFilter) (x : SearchResult) :
  In x (filtered_hits brandIndexId creatorIndexId l activeFilter activeFilters)
  <-> In x l /\
      matchesIndex brandIndexId creatorIndexId activeFilter x = true /\
      (activeFilters = [] \/ matchesFormat activeFilters x = true).
Proof.
  unfold filtered_hits.
  assert (H1 : In x match activeFilter with
                    | all => l
                    | _ => List.filter
                             (matchesIndex brandIndexId creatorIndexId
                                activeFilter) l
                    end
               <-> In x l /\
                   matchesIndex brandIndexId creatorIndexId activeFilter x
                   = true).
  { destruct activeFilter; rewrite ?filter_In; simpl; tauto. }
  destruct activeFilters as [|f fs].
  - rewrite H1. intuition.
  - rewrite filter_In, H1. intuition discriminate.
Qed.

(** The view that [filteredResults] returns holds exactly the hits of the
    state that pass the partition selector and, when a format is selected,
    have one of the selected formats; it is ordered by confidence priority,
    highest first, and within one priority by score, highest first. *)
Theorem filteredResults_view (σ : list (list SearchResult)) (a : nat)
  (activeFilter : IndexFilter) (activeFilters : list FormatFilter)
  (l : list SearchResult) :
  σ !! a = Some l ->
  let out := filteredResults brandIndexId creatorIndexId σ a
               activeFilter activeFilters in
  exists view,
    out.1 !! out.2 = Some view /\
    StronglySorted confidence_ranked view /\
    (forall x, In x view <->
       In x l /\
       matchesIndex brandIndexId creatorIndexId activeFilter x = true /\
       (activeFilters = [] \/ matchesFormat activeFilters x = true)) /\
    (length view <= length l)%nat.
Proof.
  intros Ha out.
  destruct (filteredResults_spec brandIndexId creatorIndexId σ a
              activeFilter activeFilters l Ha) as [Hview _].
  eexists. split; [exact Hview|]. split; [|split].
  - apply StronglySorted_weaken with (R := sorts_before compareConfidence).
    + intros x y. apply compareConfidence_before.
    + apply js_sort_sorted.
      * intros x y. rewrite !compareConfidence_before.
        apply confidence_ranked_total.
      * intros x y z. rewrite !compareConfidence_before.
        apply confidence_ranked_trans.
  - intros x. rewrite <- filtered_hits_elem. split; intros H.
    + eapply Permutation_in; [apply js_sort_perm|exact H].
    + eapply Permutation_in; [symmetry; apply js_sort_perm|exact H].
  - rewrite (Permutation_length (js_sort_perm _ _)).
    unfold filtered_hits.
    pose proof (filter_length_le
                  (matchesIndex brandIndexId creatorIndexId activeFilter) l).
    destruct activeFilter, activeFilters as [|f fs]; simpl; try lia;
      match goal with |- context [List.filter ?p ?xs] =>
        pose proof (filter_length_le p xs) end; lia.
Qed.

(** With a partition or a format selected, computing the view changes no
    array that is in the store: the results of the state stay as they
    were. *)
Theorem filteredResults_leaves_state_when_filtering
  (σ : list (list SearchResult)) (a : nat)
  (activeFilter : IndexFilter) (activeFilters : list FormatFilter)
  (l : list SearchResult) :
  σ !! a = Some l ->
  no_filter activeFilter activeFilters = false ->
  forall b, (b < length σ)%nat ->
    (filteredResults brandIndexId creatorIndexId σ a
       activeFilter activeFilters).1 !! b = σ !! b.
Proof.
  intros Ha Hf b Hb.
  destruct (filteredResults_spec brandIndexId creatorIndexId σ a
              activeFilter activeFilters l Ha) as [_ Hstore].
  rewrite (Hstore b Hb), Hf, andb_false_r. reflexivity.
Qed.

End ViewFacts.

Lemma mergeResults_unique_keys_witness :
  unique_keys
    (SemanticSearch.mergeResults
       [hit "v1" 10 20 "high" 0.9 "brand"]
       [hit "v1" 10 20 "high" 0.9 "brand"; hit "v2" 0 5 "low" 0.4 "creator"]).
Proof.
  apply (mergeResults_unique_keys
           [hit "v1" 10 20 "high" 0.9 "brand"]
           [hit "v1" 10 20 "high" 0.9 "brand";
            hit "v2" 0 5 "low" 0.4 "creator"]);
    vm_compute; auto.
Defined.

Lemma filteredResults_view_witness :
  let l := [hit "v1" 0 5 "low" 0.4 "brand"; hit "v2" 0 5 "high" 0.9 "creator"] in
  let out := SemanticSearch.filteredResults (Some "brand"%string)
               (Some "creator"%string) [l] 0%nat SemanticSearch.brands [] in
  exists view,
    out.1 !! out.2 = Some view /\
    StronglySorted confidence_ranked view /\
    (forall x, In x view <->
       In x l /\
       SemanticSearch.matchesIndex (Some "brand"%string)
         (Some "creator"%string) SemanticSearch.brands x = true /\
       (@nil SemanticSearch.FormatFilter = [] \/
        SemanticSearch.matchesFormat [] x = true)) /\
    (length view <= length l)%nat.
Proof.
  apply (filteredResults_view (Some "brand"%string) (Some "creator"%string)
           [[hit "v1" 0 5 "low" 0.4 "brand";
             hit "v2" 0 5 "high" 0.9 "creator"]] 0%nat
           SemanticSearch.brands []
           [hit "v1" 0 5 "low" 0.4 "brand";
            hit "v2" 0 5 "high" 0.9 "creator"]).
  reflexivity.
Defined.

Lemma filteredResults_leaves_state_when_filtering_witness :
  let l := [hit "v1" 0 5 "low" 0.4 "brand"; hit "v2" 0 5 "high" 0.9 "creator"] in
  (SemanticSearch.filteredResults (Some "brand"%string)
     (Some "creator"%string) [l] 0%nat SemanticSearch.all
     [SemanticSearch.horizontal]).1 !! 0%nat = Some l.
Proof.
  apply (filteredResults_leaves_state_when_filtering (Some "brand"%string)
           (Some "creator"%string)
           [[hit "v1" 0 5 "low" 0.4 "brand";
             hit "v2" 0 5 "high" 0.9 "creator"]] 0%nat
           SemanticSearch.all [SemanticSearch.horizontal]
           [hit "v1" 0 5 "low" 0.4 "brand";
            hit "v2" 0 5 "high" 0.9 "creator"]);
    [reflexivity|reflexivity|simpl; lia].
Defined.

(** ** Format toggles and clearing the search *)

Section ControlFacts.
Import SemanticSearch SearchControls.

Lemma toggleFormatFilter_elem (filter g : FormatFilter)
  (prev : list FormatFilter) :
  g ∈ toggleFormatFilter filter prev <->
  (g = filter /\ filter ∉ prev) \/ (g <> filter /\ g ∈ prev).
Proof.
  unfold toggleFormatFilter. case_bool_decide as Hin.
  - rewrite list_elem_of_In, filter_In, <- list_elem_of_In.
    rewrite negb_true_iff, bool_decide_eq_false. tauto.
  - rewrite elem_of_app, list_elem_of_singleton.
    destruct (decide (g = filter)) as [->|Hne]; tauto.
Qed.

Lemma NoDup_list_filter {A} (p : A -> bool) (xs : list A) :
  NoDup xs -> NoDup (List.filter p xs).
Proof.
  induction 1 as [|a xs Ha Hxs IH]; simpl; [constructor|].
  destruct (p a); [|exact IH].
  constructor; [|exact IH].
  rewrite list_elem_of_In, filter_In, <- list_elem_of_In. tauto.
Qed.

(** [toggleFormatFilter] flips the selection of its format and of no other
    format, and never makes a format appear twice. *)
Theorem toggleFormatFilter_flips_one_format (filter : FormatFilter)
  (prev : list FormatFilter) :
  (filter ∈ toggleFormatFilter filter prev <-> filter ∉ prev) /\
  (forall g, g <> filter ->
     (g ∈ toggleFormatFilter filter prev <-> g ∈ prev)) /\
  (NoDup prev -> NoDup (toggleFormatFilter filter prev)).
Proof.
  split; [|split].
  - rewrite toggleFormatFilter_elem. tauto.
  - intros g Hne. rewrite toggleFormatFilter_elem. tauto.
  - intros Hnd. unfold toggleFormatFilter. case_bool_decide as Hin.
    + now apply NoDup_list_filter.
    + apply NoDup_app. split; [exact Hnd|]. split; [|apply NoDup_singleton].
      intros x Hx Hx'. apply list_elem_of_singleton in Hx'. now subst.
Qed.

Lemma toggleFormatFilter_flips_one_format_witness :
  (vertical ∈ toggleFormatFilter horizontal [vertical] <->
   vertical ∈ [vertical]) /\
  NoDup (toggleFormatFilter horizontal [vertical]).
Proof.
  destruct (toggleFormatFilter_flips_one_format horizontal [vertical])
    as (_ & H2 & H3).
  split.
  - apply (H2 vertical). discriminate.
  - apply H3. apply NoDup_singleton.
Defined.

Lemma filtered_hits_ext (brandIndexId creatorIndexId : option string)
  (l : list SearchResult) (activeFilter : IndexFilter)
  (fs fs' : list FormatFilter) :
  (forall g, g ∈ fs <-> g ∈ fs') ->
  filtered_hits brandIndexId creatorIndexId l activeFilter fs
  = filtered_hits brandIndexId creatorIndexId l activeFilter fs'.
Proof.
  intros Heq. unfold filtered_hits.
  destruct fs as [|f fs], fs' as [|f' fs']; [reflexivity| | |].
  - exfalso. apply (not_elem_of_nil f'). apply Heq. now left.
  - exfalso. apply (not_elem_of_nil f). apply Heq. now left.
  - apply filter_ext. intros x. unfold matchesFormat.
    destruct (format x) as [g|]; [|reflexivity].
    apply bool_decide_ext. apply Heq.
Qed.

(** Toggling a format twice gives back the same selection, as a set, and
    so the same filtered hits. *)
Theorem toggleFormatFilter_twice (brandIndexId creatorIndexId : option string)
  (filter : FormatFilter) (prev : list FormatFilter)
  (l : list SearchResult) (activeFilter : IndexFilter) :
  (forall g, g ∈ toggleFormatFilter filter (toggleFormatFilter filter prev)
             <-> g ∈ prev) /\
  filtered_hits brandIndexId creatorIndexId l activeFilter
    (toggleFormatFilter filter (toggleFormatFilter filter prev))
  = filtered_hits brandIndexId creatorIndexId l activeFilter prev.
Proof.
  assert (H : forall g,
            g ∈ toggleFormatFilter filter (toggleFormatFilter filter prev)
            <-> g ∈ prev).
  { intros g. rewrite !toggleFormatFilter_elem.
    destruct (decide (g = filter)) as [->|Hne]; [|tauto].
    destruct (decide (filter ∈ prev)); tauto. }
  split; [exact H|]. now apply filtered_hits_ext.
Qed.

Section Clearing.
Variable brandIndexId creatorIndexId : option string.
Variable fetchVideoDetails : string -> string -> Outcome VideoDetails.
Variable searchByToken : string -> option string -> Outcome (option TokenPage).

(** After [clearSearch] the page holds no result and no continuation
    token, [hasMoreResults] is off and agrees with the token table, no
    filter is selected, and a continuation trigger changes nothing,
    whatever was stored before.  Clearing twice is clearing once. *)
Theorem clearSearch_resets_pagination
  (st : PageState) (activeFilter : IndexFilter)
  (activeFilters : list FormatFilter) :
  let cleared := clearSearch (st, activeFilter, activeFilters) in
  enhancedResults cleared.1.1 = [] /\
  nextPageTokens cleared.1.1 = ∅ /\
  hasMoreResults cleared.1.1 = false /\
  hasMore_agrees cleared.1.1 /\
  no_filter cleared.1.2 cleared.2 = true /\
  loadMoreResults brandIndexId creatorIndexId fetchVideoDetails
    searchByToken cleared.1.1 = cleared.1.1 /\
  clearSearch cleared = cleared.
Proof.
  simpl. split; [reflexivity|]. split; [reflexivity|].
  split; [reflexivity|]. split; [|repeat split].
  unfold hasMore_agrees, stored_token_non_null. simpl. split.
  - discriminate.
  - intros (k & t & Hk). rewrite lookup_empty in Hk. discriminate Hk.
Qed.

End Clearing.

End ControlFacts.

(** ** The result counters *)

Section CounterFacts.
Import SemanticSearch SearchControls.

Lemma disjoint_filters_length {A} (p q : A -> bool) (xs : list A) :
  (forall a, p a = true -> q a = false) ->
  (length (List.filter p xs) + length (List.filter q xs) <= length xs)%nat.
Proof.
  intros Hpq. induction xs as [|a xs IH]; simpl; [lia|].
  destruct (p a) eqn:Hp.
  - rewrite (Hpq a Hp). simpl. lia.
  - destruct (q a); simpl; lia.
Qed.

Lemma truthy_string_Some (o : option string) (s : string) :
  truthy_string o = Some s -> o = Some s.
Proof.
  destruct o as [s'|]; simpl; [|discriminate].
  destruct (String.eqb s' ""); [discriminate|]. now intros [= ->].
Qed.

(** With two different partition ids configured: when the server reported
    no totals, the brand and creator counters are counted from the results
    held and together never exceed the counter for all; when the server
    reported a positive total for each partition and their sum as the
    total, the counter for all is the sum of the two. *)
Theorem result_counters_consistent
  (brandIndexId creatorIndexId : option string) (b c : string)
  (st : PageState) :
  truthy_string brandIndexId = Some b ->
  truthy_string creatorIndexId = Some c ->
  b <> c ->
  (totalResults st = (0, 0, 0) ->
   brandResultCount brandIndexId st + creatorResultCount creatorIndexId st
   <= allResultCount st) /\
  (forall totalBrands totalCreators,
     totalResults st = (totalBrands + totalCreators, totalBrands, totalCreators) ->
     0 < totalBrands -> 0 < totalCreators ->
     allResultCount st ==
     brandResultCount brandIndexId st + creatorResultCount creatorIndexId st).
Proof.
  intros Hb Hc Hne.
  unfold allResultCount, brandResultCount, creatorResultCount.
  rewrite Hb, Hc.
  apply truthy_string_Some in Hb, Hc. subst brandIndexId creatorIndexId.
  split.
  - intros ->. simpl.
    rewrite <- inject_Z_plus, <- Zle_Qle, <- Nat2Z.inj_add.
    apply Nat2Z.inj_le. apply disjoint_filters_length.
    intros r Hr. simpl in *.
    apply String.eqb_eq in Hr. apply String.eqb_neq. congruence.
  - intros tb tc -> Htb Htc.
    assert (Qle_bool (tb + tc) 0 = false) as ->.
    { apply not_true_iff_false. rewrite Qle_bool_iff. lra. }
    assert (Qle_bool tb 0 = false) as ->.
    { apply not_true_iff_false. rewrite Qle_bool_iff. lra. }
    assert (Qle_bool tc 0 = false) as ->.
    { apply not_true_iff_false. rewrite Qle_bool_iff. lra. }
    simpl. reflexivity.
Qed.

Lemma result_counters_consistent_witness :
  brandResultCount (Some "brand"%string)
    (searched [hit "v1" 10 20 "high" 0.9 "brand";
               hit "v2" 0 5 "low" 0.4 "other"] false ∅)
  + creatorResultCount (Some "creator"%string)
      (searched [hit "v1" 10 20 "high" 0.9 "brand";
                 hit "v2" 0 5 "low" 0.4 "other"] false ∅)
  <= allResultCount
       (searched [hit "v1" 10 20 "high" 0.9 "brand";
                  hit "v2" 0 5 "low" 0.4 "other"] false ∅).
Proof.
  apply (proj1 (result_counters_consistent (Some "brand"%string)
                  (Some "creator"%string) "brand"%string "creator"%string
                  (searched [hit "v1" 10 20 "high" 0.9 "brand";
                             hit "v2" 0 5 "low" 0.4 "other"] false ∅)
                  eq_refl eq_refl ltac:(discriminate))).
  reflexivity.
Defined.

End CounterFacts.

(** ** Times shown by the pages and the player *)

Section TimeFacts.

Lemma Qfloor_unique (x : Q) (z : Z) :
  inject_Z z <= x -> x < inject_Z (z + 1) -> Qfloor x = z.
Proof.
  intros Hle Hlt.
  pose proof (Qfloor_le x) as F1. pose proof (Qlt_floor x) as F2.
  assert (Qfloor x < z + 1)%Z by (rewrite Zlt_Qlt; lra).
  assert (z < Qfloor x + 1)%Z by (rewrite Zlt_Qlt; lra).
  lia.
Qed.

Lemma sixty_times_sixtieth (x : Q) : x == 60 * (x / 60).
Proof. field. Qed.

Lemma two_digits (secs : Z) :
  (0 <= secs < 60)%Z ->
  padStart 2 (Ascii.ascii_of_nat 48) (integer_to_string secs)
  = (if (secs <? 10)%Z then "0" else "") +:+ integer_to_string secs /\
  String.length
    (padStart 2 (Ascii.ascii_of_nat 48) (integer_to_string secs)) = 2%nat.
Proof.
  intros Hs.
  assert (H : Forall
    (fun s =>
       padStart 2 (Ascii.ascii_of_nat 48) (integer_to_string s)
       = (if (s <? 10)%Z then "0" else "") +:+ integer_to_string s /\
       String.length
         (padStart 2 (Ascii.ascii_of_nat 48) (integer_to_string s)) = 2%nat)
    (seqZ 0 60)).
  { vm_compute. repeat (constructor; [split; reflexivity|]). constructor. }
  rewrite Forall_seqZ in H. apply H. lia.
Qed.

(** For a time that is not negative (and within the safe integers), the
    [formatTime] of the search page and the [formatTime] of the player give
    the same text: the whole minutes, a colon, and the remaining whole
    seconds, which are between 0 and 59 and always take two digits. *)
Theorem formatTime_minutes_and_two_digit_seconds (seconds : number) :
  0 <= seconds -> seconds <= 9007199254740991 ->
  SearchControls.formatTime seconds = VideoPlayer.formatTime seconds /\
  exists secs : Z,
    (0 <= secs < 60)%Z /\
    Qfloor seconds = (60 * Qfloor (seconds / 60) + secs)%Z /\
    SearchControls.formatTime seconds
    = integer_to_string (Qfloor (seconds / 60)) +:+ ":" +:+
      padStart 2 (Ascii.ascii_of_nat 48) (integer_to_string secs) /\
    String.length
      (padStart 2 (Ascii.ascii_of_nat 48) (integer_to_string secs)) = 2%nat.
Proof.
  intros Hpos _.
  unfold SearchControls.formatTime, VideoPlayer.formatTime, js_rem, js_trunc.
  pose proof (sixty_times_sixtieth seconds) as Hdiv.
  set (q := seconds / 60) in *.
  set (m := Qfloor q).
  pose proof (Qfloor_le q) as M1.
  pose proof (Qlt_floor q) as M2. fold m in M1, M2.
  rewrite inject_Z_plus in M2. change (inject_Z 1) with 1 in M2.
  assert (Hq : Qle_bool 0 q = true).
  { apply Qle_bool_iff. lra. }
  rewrite Hq.
  set (secs := Qfloor (seconds - 60 * inject_Z m)).
  assert (Hsecs : secs = (Qfloor seconds - 60 * m)%Z).
  { apply Qfloor_unique.
    - unfold Zminus. rewrite inject_Z_plus, inject_Z_opp, inject_Z_mult.
      change (inject_Z 60) with 60.
      pose proof (Qfloor_le seconds). lra.
    - unfold Zminus. rewrite !inject_Z_plus, inject_Z_opp, inject_Z_mult.
      change (inject_Z 60) with 60. change (inject_Z 1) with 1.
      pose proof (Qlt_floor seconds) as F. rewrite inject_Z_plus in F.
      change (inject_Z 1) with 1 in F. lra. }
  assert (Hrange : (0 <= secs < 60)%Z).
  { split.
    - change 0%Z with (Qfloor 0). apply Qfloor_resp_le. lra.
    - rewrite Zlt_Qlt. pose proof (Qfloor_le (seconds - 60 * inject_Z m)) as F.
      fold secs in F. change (inject_Z 60) with 60. lra. }
  destruct (two_digits secs Hrange) as [Hpad Hlen].
  split.
  - rewrite Hpad. reflexivity.
  - exists secs. repeat split; try lia; assumption.
Qed.

Lemma formatTime_minutes_and_two_digit_seconds_witness :
  SearchControls.formatTime 125.7 = VideoPlayer.formatTime 125.7 /\
  exists secs : Z,
    (0 <= secs < 60)%Z /\
    Qfloor 125.7 = (60 * Qfloor (125.7 / 60) + secs)%Z /\
    SearchControls.formatTime 125.7
    = integer_to_string (Qfloor (125.7 / 60)) +:+ ":" +:+
      padStart 2 (Ascii.ascii_of_nat 48) (integer_to_string secs) /\
    String.length
      (padStart 2 (Ascii.ascii_of_nat 48) (integer_to_string secs)) = 2%nat.
Proof.
  apply (formatTime_minutes_and_two_digit_seconds 125.7); vm_compute;
    discriminate.
Defined.

End TimeFacts.

(** ** The video player *)

Section PlayerFacts.
Import VideoPlayer.

(** While a segment is looped and seeking does not throw, the time that
    [handleTimeUpdate] stores and hands to [onTimeUpdate] is always before
    the end of the segment, and the handler does one of two things: it
    replaces the time by the start of the segment, sends the element
    there and sets the player playing and not ended; or it passes the
    time of the element on and changes nothing else.  Muting and the
    buffered share are never touched. *)
Theorem handleTimeUpdate_stays_before_segment_end
  (p : Props) (s e : number) (videoCurrentTime : option number)
  (st : PlayerState) :
  startTime p = Some s -> endTime p = Some e -> s < e ->
  let out := handleTimeUpdate p videoCurrentTime false st in
  out.2 < e /\
  currentTime out.1.1 = out.2 /\
  muted out.1.1 = muted st /\ loaded out.1.1 = loaded st /\
  ((out.2 = s /\ out.1.2 = Some s /\
    playing out.1.1 = true /\ ended out.1.1 = false) \/
   (out.2 = default 0 videoCurrentTime /\ out.1.2 = None /\
    playing out.1.1 = playing st /\ ended out.1.1 = ended st)).
Proof.
  intros Hs He Hlt. unfold handleTimeUpdate, shouldLoopSegment.
  rewrite Hs, He.
  assert (Qle_bool e s = false) as ->.
  { apply not_true_iff_false. rewrite Qle_bool_iff. lra. }
  simpl negb. cbv iota.
  set (time := default 0 videoCurrentTime).
  destruct st as [pl mu ct en lo].
  destruct (Qle_bool (e - 0.05) time) eqn:E.
  - destruct pl; simpl; (split; [lra|]); do 3 (split; [reflexivity|]);
      left; repeat split.
  - assert (Hbefore : time < e - 0.05).
    { apply Qnot_le_lt. rewrite <- Qle_bool_iff. congruence. }
    simpl. split; [lra|]. do 3 (split; [reflexivity|]).
    right. repeat split.
Qed.

Lemma handleTimeUpdate_stays_before_segment_end_witness :
  let out := handleTimeUpdate (mkProps (Some 10) (Some 20)) (Some 19.98)
               false (mkPlayer false true 19.9 true 0.5) in
  out.2 < 20 /\ currentTime out.1.1 = out.2 /\
  muted out.1.1 = true /\ loaded out.1.1 = 0.5.
Proof.
  destruct (handleTimeUpdate_stays_before_segment_end
              (mkProps (Some 10) (Some 20)) 10 20 (Some 19.98)
              (mkPlayer false true 19.9 true 0.5) eq_refl eq_refl)
    as (H1 & H2 & H3 & H4 & _).
  - vm_compute. reflexivity.
  - split; [exact H1|]. split; [exact H2|]. split; [exact H3|exact H4].
Defined.

(** [handleProgress] keeps the buffered share at or below 1, changes
    nothing but that share, and changes nothing at all when the element
    reports no duration or no buffered range. *)
Theorem handleProgress_share_at_most_one
  (videoDuration : number) (buffered : list (number * number))
  (st : PlayerState) :
  let st' := handleProgress videoDuration buffered st in
  (loaded st <= 1 -> loaded st' <= 1) /\
  playing st' = playing st /\ muted st' = muted st /\
  currentTime st' = currentTime st /\ ended st' = ended st /\
  (videoDuration == 0 \/ buffered = [] -> st' = st).
Proof.
  unfold handleProgress, truthy_number.
  destruct (Qeq_bool videoDuration 0) eqn:E; simpl.
  - repeat split; auto.
  - destruct (last buffered) as [[b0 loadedSeconds]|] eqn:L; simpl.
    + repeat split; auto.
      * intros _. apply Q.le_min_r.
      * intros [Hz|Hnil].
        -- apply Qeq_bool_iff in Hz. congruence.
        -- subst buffered. discriminate L.
    + repeat split; auto.
Qed.

Lemma handleProgress_share_at_most_one_witness :
  loaded (handleProgress 60 [(0, 12); (30, 90)]
            (mkPlayer true false 5 false 0.2)) <= 1.
Proof.
  apply (proj1 (handleProgress_share_at_most_one 60 [(0, 12); (30, 90)]
                  (mkPlayer true false 5 false 0.2))).
  vm_compute. discriminate.
Defined.

(** [toggleMute] flips the mute state and never pauses: unmuting a paused
    player starts it, muting leaves playback as it is, and the position,
    the ended flag and the buffered share are not touched. *)
Theorem toggleMute_never_pauses (st : PlayerState) :
  let st' := toggleMute st in
  muted st' = negb (muted st) /\
  playing st' = (playing st || muted st) /\
  currentTime st' = currentTime st /\ ended st' = ended st /\
  loaded st' = loaded st /\
  muted (toggleMute st') = muted st.
Proof.
  unfold toggleMute. destruct st as [pl mu ct en lo].
  destruct pl, mu; simpl; repeat split.
Qed.

End PlayerFacts.

(** ** The heatmap *)

Section HeatmapFacts.
Import Heatmap.

Lemma rowMaxValue_floor (buckets : list Bucket) : 0.1 <= rowMaxValue buckets.
Proof.
  unfold rowMaxValue. induction buckets as [|b bs IH]; simpl.
  - apply Qle_refl.
  - eapply Qle_trans; [exact IH|apply Q.le_max_r].
Qed.

Lemma rowMaxValue_upper (buckets : list Bucket) (b : Bucket) :
  In b buckets -> value b <= rowMaxValue buckets.
Proof.
  unfold rowMaxValue. induction buckets as [|b' bs IH]; simpl; [tauto|].
  intros [->|Hin].
  - apply Q.le_max_l.
  - eapply Qle_trans; [apply IH, Hin|apply Q.le_max_r].
Qed.

Lemma getColorForValue_darkest (v maxValue : number) :
  0 < maxValue -> maxValue <= v ->
  getColorForValue v maxValue = "rgba(29, 28, 27, 1)"%string.
Proof.
  intros Hpos Hle. unfold getColorForValue.
  assert (Qeq_bool maxValue 0 = false) as ->.
  { apply not_true_iff_false. rewrite Qeq_bool_iff. lra. }
  assert (Hn : 1 <= Qmin (v / maxValue) 1).
  { apply Q.min_glb; [|apply Qle_refl].
    apply Qle_shift_div_l; [exact Hpos|lra]. }
  repeat match goal with
  | |- context [Qle_bool ?n ?c] =>
      let E := fresh "E" in
      destruct (Qle_bool n c) eqn:E;
      [apply Qle_bool_iff in E; exfalso; lra|]
  end.
  reflexivity.
Qed.

Lemma getColorForValue_white (v maxValue : number) :
  0 < maxValue -> v <= 0.1 * maxValue ->
  getColorForValue v maxValue = "rgba(255, 255, 255, 1)"%string.
Proof.
  intros Hpos Hle. unfold getColorForValue.
  destruct (Qeq_bool maxValue 0); [reflexivity|].
  assert (Hn : Qmin (v / maxValue) 1 <= 0.1).
  { eapply Qle_trans; [apply Q.le_min_l|].
    apply Qle_shift_div_r; [exact Hpos|lra]. }
  apply Qle_bool_iff in Hn. now rewrite Hn.
Qed.

(** In every row of the heatmap the value that colours are scaled by is at
    least 0.1 and at least every value of the row.  A cell that holds the
    largest value of its row, when that value is at least 0.1, is drawn in
    the darkest colour; a cell whose value is at most a tenth of the row's
    scale, and every cell beyond the buckets of the row, is drawn white. *)
Theorem heatmap_cell_colours (buckets : list Bucket) :
  0.1 <= rowMaxValue buckets /\
  (forall b, In b buckets -> value b <= rowMaxValue buckets) /\
  (forall colIndex b,
     buckets !! colIndex = Some b ->
     rowMaxValue buckets <= value b ->
     cellColor buckets colIndex = "rgba(29, 28, 27, 1)"%string) /\
  (forall colIndex b,
     buckets !! colIndex = Some b ->
     value b <= 0.1 * rowMaxValue buckets ->
     cellColor buckets colIndex = "rgba(255, 255, 255, 1)"%string) /\
  (forall colIndex,
     buckets !! colIndex = None ->
     cellColor buckets colIndex = "rgba(255, 255, 255, 1)"%string).
Proof.
  pose proof (rowMaxValue_floor buckets) as Hfloor.
  split; [exact Hfloor|]. split; [apply rowMaxValue_upper|].
  split; [|split].
  - intros i b Hb Hmax. unfold cellColor. rewrite Hb. simpl.
    unfold truthy_number.
    assert (Qeq_bool (value b) 0 = false) as ->.
    { apply not_true_iff_false. rewrite Qeq_bool_iff. lra. }
    simpl. apply getColorForValue_darkest; lra.
  - intros i b Hb Hsmall. unfold cellColor. rewrite Hb. simpl.
    unfold truthy_number.
    destruct (Qeq_bool (value b) 0); simpl;
      apply getColorForValue_white; lra.
  - intros i Hnone. unfold cellColor. rewrite Hnone. simpl.
    apply getColorForValue_white; lra.
Qed.

Lemma heatmap_cell_colours_witness :
  cellColor [mkBucket 0 50 4 None; mkBucket 50 100 0.3 None] 0%nat
  = "rgba(29, 28, 27, 1)"%string /\
  cellColor [mkBucket 0 50 4 None; mkBucket 50 100 0.3 None] 1%nat
  = "rgba(255, 255, 255, 1)"%string /\
  cellColor [mkBucket 0 50 4 None; mkBucket 50 100 0.3 None] 5%nat
  = "rgba(255, 255, 255, 1)"%string.
Proof.
  destruct (heatmap_cell_colours
              [mkBucket 0 50 4 None; mkBucket 50 100 0.3 None])
    as (_ & _ & Hdark & Hwhite & Hnone).
  split; [|split].
  - apply (Hdark 0%nat (mkBucket 0 50 4 None)); [reflexivity|].
    vm_compute. discriminate.
  - apply (Hwhite 1%nat (mkBucket 50 100 0.3 None)); [reflexivity|].
    vm_compute. discriminate.
  - apply (Hnone 5%nat). reflexivity.
Defined.

End HeatmapFacts.
